(** * audit_metrics.py: classification of metric names and aggregation of
      scrape targets

    A shallow embedding of [src/audit_metrics.py].  Python [str] values are
    [string]s (UTF-8 bytes: prefix and substring tests with the ASCII
    patterns of the script agree with the tests on code points), Python
    [int] counters are [Z], and the dictionaries built by the script are
    stdpp [gmap]s keyed by strings.  The two static tables are lists, since
    the script walks them in declaration order.  The order in which a
    result dictionary lists its keys is not represented. *)

From stdpp Require Import gmap strings list fin_maps sorting pretty.
From Stdlib Require Import ZArith Lia Ascii.

Local Open Scope string_scope.
Local Open Scope list_scope.
Local Open Scope Z_scope.

(** ** Python string primitives *)

(** [s.startswith(prefix)] *)
Definition startswith (s prefix : string) : bool := String.prefix prefix s.

(** [pat in s] on strings: [pat] occurs in [s] as a contiguous substring
    (the empty pattern occurs everywhere). *)
Fixpoint str_in (pat s : string) : bool :=
  String.prefix pat s ||
  match s with
  | EmptyString => false
  | String _ s' => str_in pat s'
  end.

(** [x in xs] / [x not in xs] on a list of strings. *)
Definition list_in (x : string) (xs : list string) : bool :=
  existsb (String.eqb x) xs.

(** ** Static tables *)

Record source_info := SourceInfo {
  name : string;
  description : string;
  job : string;
}.

(** [METRIC_SOURCES]: prefix → source, in declaration order (the order in
    which [METRIC_SOURCES.items()] yields its entries). *)
Definition METRIC_SOURCES : list (string * source_info) :=
  [ ("kube_", SourceInfo "kube-state-metrics"
                "Kubernetes object state metrics" "kube-state-metrics");
    ("node_", SourceInfo "node-exporter"
                "Host/node hardware and OS metrics" "node-exporter");
    ("container_", SourceInfo "cAdvisor"
                "Container resource usage and performance metrics" "kubelet");
    ("kubelet_", SourceInfo "Kubelet" "Kubelet component metrics" "kubelet");
    ("prometheus_", SourceInfo "Prometheus"
                "Prometheus server self-monitoring metrics" "prometheus");
    ("alertmanager_", SourceInfo "Alertmanager"
                "Alertmanager metrics" "alertmanager");
    ("grafana_", SourceInfo "Grafana" "Grafana metrics" "grafana");
    ("otelcol_", SourceInfo "OpenTelemetry Collector"
                "OTel Collector metrics" "gateway-collector");
    ("up", SourceInfo "Prometheus"
                "Target up/down status (Prometheus internal)" "various");
    ("scrape_", SourceInfo "Prometheus"
                "Scrape metadata (Prometheus internal)" "various") ].

Definition RECORDING_RULE_PATTERNS : list string :=
  [ ":"; "cluster:"; "node:"; "namespace:"; "pod:" ].

(** The literal list of line 141. *)
Definition RECORDING_RULE_EXCLUSIONS : list string :=
  [ "up"; "scrape_duration_seconds"; "scrape_samples_scraped" ].

(** ** categorize_metrics *)

(** [categorized[key].append(metric)] on a [defaultdict(list)]: a missing
    key starts from the empty list. *)
Definition dict_append (categorized : gmap string (list string))
    (key metric : string) : gmap string (list string) :=
  <[key := default [] (categorized !! key) ++ [metric]]> categorized.

(** [any(pattern in metric for pattern in RECORDING_RULE_PATTERNS)] *)
Definition is_recording_rule (metric : string) : bool :=
  existsb (fun pattern => str_in pattern metric) RECORDING_RULE_PATTERNS.

Section Classifier.
(** The rule table is a variable of the section, so that the loop over it
    can be studied on tables whose prefixes overlap; the script runs it on
    [METRIC_SOURCES]. *)
Variable sources : list (string * source_info).

(** The inner [for prefix, source_info in ….items()] loop with its
    [break]: the display name of the first rule whose prefix matches, or
    [None] when the loop ends with [categorized_flag] still false. *)
Fixpoint scan_sources (rules : list (string * source_info))
    (metric : string) : option string :=
  match rules with
  | [] => None
  | (prefix, info) :: rest =>
      if startswith metric prefix then Some (name info)
      else scan_sources rest metric
  end.

(** The key under which one iteration of the outer loop files [metric]. *)
Definition bucket_of (metric : string) : string :=
  if is_recording_rule metric
     && negb (list_in metric RECORDING_RULE_EXCLUSIONS)
  then "Recording Rules"
  else match scan_sources sources metric with
       | Some source => source
       | None => "Other/Unknown"
       end.

(** One iteration of the outer loop. *)
Definition categorize_step (categorized : gmap string (list string))
    (metric : string) : gmap string (list string) :=
  dict_append categorized (bucket_of metric) metric.

Definition categorize_metrics_with (metrics : list string)
    : gmap string (list string) :=
  foldl categorize_step ∅ metrics.
End Classifier.

Definition categorize_metrics (metrics : list string)
    : gmap string (list string) :=
  categorize_metrics_with METRIC_SOURCES metrics.

(** ** Scrape targets and Python exceptions *)

(** A field of a target record as the targets API delivers it: a string
    ([health], [scrapeUrl], …) or a label set (a string → string object). *)
Inductive value :=
  | VStr (s : string)
  | VLabels (labels : gmap string string).

(** A target is a Python [dict] with string keys: a [gmap string value]. *)

Inductive exn :=
  | KeyError (key : string)
  | AttributeError (attr : string)
  | MarkupError.

Inductive result (A : Type) :=
  | Ok (a : A)
  | Raise (e : exn).
Arguments Ok {A} a.
Arguments Raise {A} e.

(** Sequencing: an exception skips the rest of the block.  The instances
    give [result] stdpp's [x ← r; k] notation. *)
#[global] Instance result_ret : MRet result := fun A a => Ok a.
#[global] Instance result_bind : MBind result := fun A B k r =>
  match r with
  | Ok a => k a
  | Raise e => Raise e
  end.

(** [d[key]] on a plain [dict] *)
Definition getitem (d : gmap string value) (key : string) : result value :=
  match d !! key with
  | Some v => Ok v
  | None => Raise (KeyError key)
  end.

(** [v.get(key, dflt)]: only a mapping has the method. *)
Definition get_default (v : value) (key dflt : string) : result string :=
  match v with
  | VLabels labels => Ok (default dflt (labels !! key))
  | VStr _ => Raise (AttributeError "get")
  end.

(** [v == s] for a string literal [s] *)
Definition eq_str (v : value) (s : string) : bool :=
  match v with
  | VStr s' => String.eqb s' s
  | VLabels _ => false
  end.

(** ** get_job_stats *)

Record endpoint := Endpoint {
  url : value;
  health : value;
  labels : value;
}.

Record job_stat := JobStat {
  count : Z;
  up : Z;
  endpoints : list endpoint;
}.

(** The value the [defaultdict] factory builds for a missing job. *)
Definition fresh_stat : job_stat := JobStat 0 0 [].

(** [job_stats[job][field] = f(job_stats[job][field])] on the
    [defaultdict]: the entry is created on first access. *)
Definition update_job (f : job_stat → job_stat) (job : string)
    (job_stats : gmap string job_stat) : gmap string job_stat :=
  <[job := f (default fresh_stat (job_stats !! job))]> job_stats.

Definition incr_count (s : job_stat) : job_stat :=
  JobStat (count s + 1) (up s) (endpoints s).
Definition incr_up (s : job_stat) : job_stat :=
  JobStat (count s) (up s + 1) (endpoints s).
Definition append_endpoint (e : endpoint) (s : job_stat) : job_stat :=
  JobStat (count s) (up s) (endpoints s ++ [e]).

(** One iteration of the loop over [targets], statement by statement. *)
Definition job_stats_step (job_stats : gmap string job_stat)
    (target : gmap string value) : result (gmap string job_stat) :=
  target_labels ← getitem target "labels";
  job ← get_default target_labels "job" "unknown";
  let job_stats := update_job incr_count job job_stats in
  target_health ← getitem target "health";
  let job_stats :=
    if eq_str target_health "up" then update_job incr_up job job_stats
    else job_stats in
  endpoint ← getitem target "scrapeUrl";
  h ← getitem target "health";
  l ← getitem target "labels";
  Ok (update_job (append_endpoint (Endpoint endpoint h l)) job job_stats).

Fixpoint job_stats_loop (job_stats : gmap string job_stat)
    (targets : list (gmap string value)) : result (gmap string job_stat) :=
  match targets with
  | [] => Ok job_stats
  | target :: rest =>
      job_stats ← job_stats_step job_stats target;
      job_stats_loop job_stats rest
  end.

Definition get_job_stats (targets : list (gmap string value))
    : result (gmap string job_stat) :=
  job_stats_loop ∅ targets.

(** ** The process: streams, exit status and the Prometheus client *)

(** The body Prometheus answers with: [status] and, on success, [data]. *)
Record envelope (A : Type) := Envelope {
  status : string;
  data : option A;
}.
Arguments Envelope {A} status data.
Arguments status {A} e.
Arguments data {A} e.

(** The [data] object of [/api/v1/targets]. *)
Record targets_data := TargetsData {
  activeTargets : list (gmap string value);
}.

(** What the [try] block of [query_prometheus] meets: [requests.get] with
    its timeout, [raise_for_status] or [response.json] raise a
    [RequestException] (connection failure, timeout, an error status such
    as 500), or the decoded body is returned.  Which responses make the
    library raise is the library's matter; the outcome is an input here. *)
Inductive request_outcome (A : Type) :=
  | RequestException (e : string)
  | Json (body : envelope A).
Arguments RequestException {A} e.
Arguments Json {A} body.

(** The server as seen through the two endpoints the script queries. *)
Record prometheus := Prometheus {
  label_values : request_outcome (list string);
  targets_api : request_outcome targets_data;
}.

(** The document [print_json] dumps. *)
Record json_output := JsonOutput {
  prometheus_url : string;
  total_metrics : Z;
  metrics_by_source : gmap string (Z * list string);
  scrape_targets : gmap string job_stat;
}.

(** What reaches standard output.  The rendering done by [rich] and by
    [json.dumps] is not represented: an item records which print happened
    and on which data.  The items of [print_summary] follow its sections:
    the header panel, the two tables, the title of the sample section, its
    lines (all of them, or those printed before a text was refused) and
    the closing note; the items of the [--show-all] loop are its title and
    one line per metric. *)
Inductive out_item :=
  | Progress
  | Header
  | MetricsTable (categorized : gmap string (list string))
  | TargetsTable (job_stats : gmap string job_stat)
  | SamplesTitle
  | Samples (categorized : gmap string (list string))
  | SamplesInterrupted (categorized : gmap string (list string))
  | Note
  | AllMetricsTitle
  | MetricLine (metric : string)
  | JsonReport (output : json_output).

Record streams := Streams {
  stdout : list out_item;
  stderr : list string;
}.

Inductive outcome (A : Type) :=
  | Returns (a : A)
  | SysExit (code : Z)
  | Uncaught (e : exn).
Arguments Returns {A} a.
Arguments SysExit {A} code.
Arguments Uncaught {A} e.

(** A computation that prints: it threads the two streams and ends by
    returning, by [sys.exit] or by an exception nobody catches. *)
Definition io (A : Type) : Type := streams → outcome A * streams.

#[global] Instance io_ret : MRet io := fun A a w => (Returns a, w).
#[global] Instance io_bind : MBind io := fun A B k m w =>
  match m w with
  | (Returns a, w') => k a w'
  | (SysExit code, w') => (SysExit code, w')
  | (Uncaught e, w') => (Uncaught e, w')
  end.

Definition print_out (item : out_item) : io unit :=
  fun w => (Returns tt, Streams (stdout w ++ [item]) (stderr w)).
Definition print_err (msg : string) : io unit :=
  fun w => (Returns tt, Streams (stdout w) (stderr w ++ [msg])).
Definition sys_exit {A} (code : Z) : io A := fun w => (SysExit code, w).
Definition lift {A} (r : result A) : io A :=
  fun w => match r with
           | Ok a => (Returns a, w)
           | Raise e => (Uncaught e, w)
           end.

Definition PROMETHEUS_URL : string := "http://localhost:9090".

Definition query_prometheus {A} (response : request_outcome A)
    : io (envelope A) :=
  match response with
  | Json body => mret body
  | RequestException e =>
      print_err ("Error querying Prometheus: " +:+ e);; sys_exit 1
  end.

(** [d["data"]] on the envelope *)
Definition getdata {A} (d : envelope A) : io A :=
  match data d with
  | Some a => mret a
  | None => lift (Raise (KeyError "data"))
  end.

(** [sorted] on a list of strings *)
Definition sorted (l : list string) : list string :=
  merge_sort (fun a b => Is_true (String.leb a b)) l.

Definition get_all_metrics (server : prometheus) : io (list string) :=
  d ← query_prometheus (label_values server);
  if negb (String.eqb (status d) "success")
  then print_err "Failed to get metrics from Prometheus";; sys_exit 1
  else names ← getdata d; mret (sorted names).

Definition get_targets (server : prometheus)
    : io (list (gmap string value)) :=
  d ← query_prometheus (targets_api server);
  if negb (String.eqb (status d) "success")
  then print_err "Failed to get targets from Prometheus";; sys_exit 1
  else payload ← getdata d; mret (activeTargets payload).

Definition print_json (categorized : gmap string (list string))
    (job_stats : gmap string job_stat) : io unit :=
  print_out (JsonReport {|
    prometheus_url := PROMETHEUS_URL;
    total_metrics :=
      map_fold (fun _ metrics acc => Z.of_nat (length metrics) + acc)
               0 categorized;
    metrics_by_source :=
      (fun metrics => (Z.of_nat (length metrics), metrics)) <$> categorized;
    scrape_targets := job_stats |}).

(** ** The console of text mode *)

(** [console.print] renders its text as markup, and [rich] raises
    [MarkupError] on a text whose tags do not match (a closing tag with
    nothing to close).  Which texts it refuses is the library's matter:
    [rejects text] is an input of the model.  The templates of the script
    are well-formed, and a text without an opening bracket is plain text
    to [rich], so only a text whose inserted part (a job label, a source
    name, a metric name) holds an opening bracket is put to the test. *)
Definition markup_error (rejects : string → bool) (inserted text : string)
    : bool :=
  str_in "[" inserted && rejects text.

(** [console.print(text)]: the print happens, or [MarkupError] is raised
    and nothing of this text is written. *)
Definition console_print (rejects : string → bool) (inserted text : string)
    (item : out_item) : io unit :=
  if markup_error rejects inserted text then lift (Raise MarkupError)
  else print_out item.

Definition newline : string := String (ascii_of_nat 10) EmptyString.

(** The texts of lines 246, 249 and 327. *)
Definition sample_heading (source : string) (n : nat) : string :=
  newline +:+ "[bold cyan]" +:+ source +:+ "[/bold cyan] (" +:+ pretty n
  +:+ " metrics)".
Definition sample_line (metric : string) : string :=
  "  • [dim]" +:+ metric +:+ "[/dim]".
Definition listing_line (metric : string) : string := "  " +:+ metric.

(** Some text of the sample block of one bucket is refused: the heading
    or one of the first five metrics (an empty bucket prints nothing). *)
Definition sample_rejected (rejects : string → bool)
    (item : string * list string) : bool :=
  match item.2 with
  | [] => false
  | _ =>
      markup_error rejects item.1 (sample_heading item.1 (length item.2))
      || existsb (fun metric => markup_error rejects metric (sample_line metric))
           (take 5 item.2)
  end.

(** [print_summary], section by section.  A table is rendered as a whole
    by one [console.print]: a cell that is refused (a source name, a job
    label) leaves the table unprinted.  The sample section prints line by
    line, in the order of the sorted items: when some line is refused the
    lines before it are on standard output. *)
Definition print_summary (rejects : string → bool)
    (categorized : gmap string (list string))
    (job_stats : gmap string job_stat) : io unit :=
  print_out Header;;
  (if existsb (fun source => markup_error rejects source source)
        (map_to_list categorized).*1
   then lift (Raise MarkupError)
   else print_out (MetricsTable categorized));;
  (if existsb (fun job => markup_error rejects job job)
        (map_to_list job_stats).*1
   then lift (Raise MarkupError)
   else print_out (TargetsTable job_stats));;
  print_out SamplesTitle;;
  (if existsb (sample_rejected rejects) (map_to_list categorized)
   then print_out (SamplesInterrupted categorized);;
        lift (Raise MarkupError)
   else print_out (Samples categorized));;
  print_out Note.

(** The loop of lines 326-327. *)
Fixpoint print_each (rejects : string → bool) (metrics : list string)
    : io unit :=
  match metrics with
  | [] => mret tt
  | metric :: rest =>
      console_print rejects metric (listing_line metric) (MetricLine metric);;
      print_each rejects rest
  end.

(** The flags as [argparse] delivers them; a command line that it refuses,
    or [--help], ends the process before the code below. *)
Record arguments := Args {
  json : bool;
  show_all : bool;
}.

Definition main (rejects : string → bool) (args : arguments)
    (server : prometheus) : io unit :=
  (if negb (json args) then print_out Progress else mret tt);;
  metrics ← get_all_metrics server;
  targets ← get_targets server;
  let categorized := categorize_metrics metrics in
  job_stats ← lift (get_job_stats targets);
  if json args then print_json categorized job_stats
  else
    print_summary rejects categorized job_stats;;
    if show_all args
    then print_out AllMetricsTitle;; print_each rejects metrics
    else mret tt.

(** Running the script: the exit status and what was written.  An
    exception that reaches the top level prints a traceback on the error
    stream and exits with status 1. *)
Definition run (rejects : string → bool) (args : arguments)
    (server : prometheus) : Z * streams :=
  match main rejects args server (Streams [] []) with
  | (Returns _, w) => (0, w)
  | (SysExit code, w) => (code, w)
  | (Uncaught e, w) => (1, Streams (stdout w) (stderr w ++ ["Traceback"]))
  end.

(** An item of standard output that is a report (the progress line
    printed before the queries is not). *)
Definition is_report (item : out_item) : bool :=
  match item with
  | Progress => false
  | _ => true
  end.

(** ** The HTTP exchange behind a query *)

(** The body of a response as [response.json()] finds it. *)
Inductive body (A : Type) :=
  | NotJson (e : string)
  | Decoded (content : envelope A).
Arguments NotJson {A} e.
Arguments Decoded {A} content.

(** What [requests.get(url, timeout=10)] meets: no response (connection
    failure, timeout: the call raises with text [e]), or the final
    response with its status code, the text [raise_for_status] gives its
    [HTTPError] (status, reason and url) and its body. *)
Inductive exchange (A : Type) :=
  | NoResponse (e : string)
  | Response (status_code : Z) (http_error : string) (content : body A).
Arguments NoResponse {A} e.
Arguments Response {A} status_code http_error content.

(** [response.raise_for_status()] raises for the client and server error
    statuses, 400 to 599, and for no other. *)
Definition raise_for_status (status_code : Z) : bool :=
  (400 <=? status_code) && (status_code <? 600).

(** Lines 108-110, the three calls of the [try] block: each may raise a
    [RequestException] ([response.json()] raises one, the library's
    [JSONDecodeError], on a body that is not JSON), else the decoded body
    is returned. *)
Definition try_request {A} (x : exchange A) : request_outcome A :=
  match x with
  | NoResponse e => RequestException e
  | Response status_code http_error content =>
      if raise_for_status status_code then RequestException http_error
      else match content with
           | NotJson e => RequestException e
           | Decoded d => Json d
           end
  end.

(** The two endpoints at the level of HTTP, and what the two [try] blocks
    make of them. *)
Record http_server := HttpServer {
  label_values_http : exchange (list string);
  targets_http : exchange targets_data;
}.

Definition outcomes (server : http_server) : prometheus :=
  Prometheus (try_request (label_values_http server))
             (try_request (targets_http server)).

(** ** Vocabulary of the statements *)

(** "The name contains a colon character", read off character by
    character. *)
Fixpoint contains_colon (s : string) : bool :=
  match s with
  | EmptyString => false
  | String c s' => Ascii.eqb c ":"%char || contains_colon s'
  end.

(** Everything the buckets of a classification hold, bucket after bucket. *)
Definition bucket_contents (categorized : gmap string (list string))
    : list string :=
  concat (map_to_list categorized).*2.

(** [metric] is listed under the key [b]. *)
Definition in_bucket (categorized : gmap string (list string))
    (b metric : string) : Prop :=
  ∃ l, categorized !! b = Some l ∧ metric ∈ l.

(** A table with overlapping prefixes, to exercise the scan. *)
Definition overlapping_sources : list (string * source_info) :=
  [ ("node_", SourceInfo "node-exporter" "Host metrics" "node-exporter");
    ("kube", SourceInfo "short" "Rule with the shorter prefix" "any");
    ("kube_", SourceInfo "long" "Rule with the longer prefix" "any") ].

(** The job a target is counted under: [target["labels"].get("job",
    "unknown")]. *)
Definition job_of (target : gmap string value) : string :=
  match target !! "labels" with
  | Some (VLabels target_labels) => default "unknown" (target_labels !! "job")
  | _ => "unknown"
  end.

(** [target["health"] == "up"] *)
Definition is_up (target : gmap string value) : bool :=
  match target !! "health" with
  | Some h => eq_str h "up"
  | None => false
  end.

(** The endpoint record the loop body builds from a target. *)
Definition endpoint_of (target : gmap string value) : option endpoint :=
  u ← target !! "scrapeUrl";
  h ← target !! "health";
  l ← target !! "labels";
  Some (Endpoint u h l).

(** The precondition on a target record: a ["labels"] mapping, a
    ["health"] field and a ["scrapeUrl"] field; a ["job"] label is not
    asked for. *)
Definition has_fields (target : gmap string value) : bool :=
  match target !! "labels", target !! "health", target !! "scrapeUrl" with
  | Some (VLabels _), Some _, Some _ => true
  | _, _, _ => false
  end.

(** The entry of a job as the [defaultdict] would hand it out. *)
Definition stat_of (job_stats : gmap string job_stat) (j : string)
    : job_stat :=
  default fresh_stat (job_stats !! j).

(** [sum(stats["count"] for stats in job_stats.values())] *)
Definition total_count (job_stats : gmap string job_stat) : Z :=
  map_fold (fun _ stats acc => count stats + acc) 0 job_stats.

(** All endpoint records of a result, job after job. *)
Definition all_endpoints (job_stats : gmap string job_stat)
    : list endpoint :=
  concat (endpoints <$> (map_to_list job_stats).*2).

(** What one iteration does to the dictionary when no lookup fails. *)
Definition tally (job_stats : gmap string job_stat)
    (target : gmap string value) (e : endpoint)
    : gmap string job_stat :=
  update_job
    (fun s => JobStat (count s + 1)
                      (up s + (if is_up target then 1 else 0))
                      (endpoints s ++ [e]))
    (job_of target) job_stats.

(** An upstream query fails: the client raised, or the envelope does not
    say "success". *)
Definition query_fails {A} (response : request_outcome A) : Prop :=
  match response with
  | RequestException _ => True
  | Json body => status body ≠ "success"
  end.

(** Sample targets: two of one job, one healthy and one not, and one
    whose label set has no ["job"]. *)
Definition node_up : gmap string value :=
  {[ "labels" := VLabels {[ "job" := "node-exporter" ]};
     "health" := VStr "up";
     "scrapeUrl" := VStr "http://10.0.0.1:9100/metrics" ]}.
Definition node_down : gmap string value :=
  {[ "labels" := VLabels {[ "job" := "node-exporter" ]};
     "health" := VStr "down";
     "scrapeUrl" := VStr "http://10.0.0.2:9100/metrics" ]}.
Definition no_job : gmap string value :=
  {[ "labels" := VLabels ∅;
     "health" := VStr "up";
     "scrapeUrl" := VStr "http://10.0.0.3:8080/metrics" ]}.

Definition sample_targets : list (gmap string value) :=
  [node_up; no_job; node_down].

(** What the loop builds from [sample_targets]. *)
Definition sample_stats : gmap string job_stat :=
  {[ "node-exporter" :=
       JobStat 2 1
         [ Endpoint (VStr "http://10.0.0.1:9100/metrics") (VStr "up")
             (VLabels {[ "job" := "node-exporter" ]});
           Endpoint (VStr "http://10.0.0.2:9100/metrics") (VStr "down")
             (VLabels {[ "job" := "node-exporter" ]}) ];
     "unknown" :=
       JobStat 1 1
         [ Endpoint (VStr "http://10.0.0.3:8080/metrics") (VStr "up")
             (VLabels ∅) ] ]}.

(** Unfolding a run down to the stream operations. *)
Ltac unfold_run :=
  unfold run, main, get_all_metrics, get_targets, query_prometheus, getdata,
    lift, print_err, print_out, sys_exit, mbind, mret, io_bind, io_ret;
  cbn -[get_job_stats categorize_metrics sorted].

(** A query fails at the level of HTTP: no response, a status from 400 to
    599, or a decoded envelope that does not say "success". *)
Definition exchange_fails {A} (x : exchange A) : Prop :=
  match x with
  | NoResponse _ => True
  | Response status_code _ content =>
      400 ≤ status_code < 600 ∨
      match content with
      | Decoded d => status d ≠ "success"
      | NotJson _ => False
      end
  end.

(** The line the script writes to the error stream for a failed query;
    [what] is "metrics" or "targets". *)
Definition failure_message {A} (what : string) (x : exchange A) : string :=
  match try_request x with
  | RequestException e => "Error querying Prometheus: " +:+ e
  | Json _ => "Failed to get " +:+ what +:+ " from Prometheus"
  end.

(** A console for the examples: it refuses the texts that close a red
    tag. *)
Definition rejects_red (text : string) : bool := str_in "[/red]" text.

(** A server whose first answer has status 300 and a "success" body. *)
Definition status_300_server : http_server :=
  HttpServer
    (Response 300 "300 Multiple Choices"
       (Decoded (Envelope "success" (Some ["up"; "b:c"; "a"]))))
    (Response 200 "200 OK"
       (Decoded (Envelope "success" (Some (TargetsData sample_targets))))).

(** Every text of the report renders: the source names and job labels of
    the tables and the sample blocks. *)
Definition summary_renders (rejects : string → bool)
    (categorized : gmap string (list string))
    (job_stats : gmap string job_stat) : bool :=
  negb (existsb (fun source => markup_error rejects source source)
          (map_to_list categorized).*1)
  && negb (existsb (fun job => markup_error rejects job job)
             (map_to_list job_stats).*1)
  && negb (existsb (sample_rejected rejects) (map_to_list categorized)).

(** The job label of every target renders as a table cell. *)
Definition jobs_render (rejects : string → bool)
    (targets : list (gmap string value)) : bool :=
  forallb (fun target =>
             negb (markup_error rejects (job_of target) (job_of target)))
          targets.

(** The sample line of each of the first five metrics of every bucket
    renders. *)
Definition samples_render (rejects : string → bool)
    (categorized : gmap string (list string)) : bool :=
  forallb (fun item =>
             forallb (fun metric =>
                        negb (markup_error rejects metric
                                (sample_line metric)))
                     (take 5 item.2))
          (map_to_list categorized).

(** Every line of the [--show-all] listing renders. *)
Definition listing_renders (rejects : string → bool)
    (metrics : list string) : bool :=
  forallb (fun metric => negb (markup_error rejects metric
                                 (listing_line metric))) metrics.

(** The items of a report that was printed to its end. *)
Definition report_items (categorized : gmap string (list string))
    (job_stats : gmap string job_stat) : list out_item :=
  [Header; MetricsTable categorized; TargetsTable job_stats;
   SamplesTitle; Samples categorized; Note].

(** ** The reporter: what print_summary computes *)

(** [sorted] with a key is stable.  [before x y] says that [x], met
    first, stays in front of [y]; an element is moved behind those that
    must precede it and no further. *)
Fixpoint insert_sorted {A} (before : A → A → bool) (x : A) (l : list A)
    : list A :=
  match l with
  | [] => [x]
  | y :: l' => if before x y then x :: l else y :: insert_sorted before x l'
  end.

Definition stable_sort {A} (before : A → A → bool) (l : list A) : list A :=
  foldr (insert_sorted before) [] l.

(** The loop of lines 206-209 with its [break]: the description of the
    first rule whose display name is [source], else the empty string. *)
Fixpoint find_description (rules : list (string * source_info))
    (source : string) : string :=
  match rules with
  | [] => EmptyString
  | (_, info) :: rest =>
      if String.eqb (name info) source then description info
      else find_description rest source
  end.

(** The description column of a row (lines 205-214). *)
Definition describe (source : string) : string :=
  let description := find_description METRIC_SOURCES source in
  if String.eqb source "Recording Rules"
  then "Pre-computed metrics from other metrics"
  else if String.eqb source "Other/Unknown"
  then "Metrics with non-standard prefixes"
  else description.

(** [key=lambda x: len(x[1]), reverse=True] *)
Definition by_count_desc (x y : string * list string) : bool :=
  (length y.2 <=? length x.2)%nat.

(** The rows of the "Metrics by Source" table, for the items of
    [categorized] in the order the dictionary lists them: source, count,
    description. *)
Definition summary_rows (items : list (string * list string))
    : list (string * Z * string) :=
  (fun item => (item.1, Z.of_nat (length item.2), describe item.1))
    <$> stable_sort by_count_desc items.

(** [total_metrics] as the same loop accumulates it. *)
Definition summary_total (items : list (string * list string)) : Z :=
  foldl (fun total item => total + Z.of_nat (length item.2)) 0
        (stable_sort by_count_desc items).

(** [sorted(job_stats.items())]: the keys of a dictionary differ, so the
    comparison of two items is decided by the job names. *)
Definition by_job (x y : string * job_stat) : bool := String.leb x.1 y.1.

(** The rows of the "Scrape Targets (Jobs)" table: job, targets, up, and
    whether the health column shows the check mark ([up == count]). *)
Definition target_rows (items : list (string * job_stat))
    : list (string * Z * Z * bool) :=
  (fun item => (item.1, count item.2, up item.2, up item.2 =? count item.2))
    <$> stable_sort by_job items.

(** The sample block of one bucket (lines 245-251): nothing for an empty
    list, else the number in the heading, the first five metrics and, when
    there are more than five, the number in the "... and N more" line. *)
Definition sample_block (metrics : list string)
    : option (nat * list string * option nat) :=
  match metrics with
  | [] => None
  | _ => Some (length metrics, take 5 metrics,
               if (5 <? length metrics)%nat
               then Some (length metrics - 5)%nat else None)
  end.

(** The exception the loop body of [get_job_stats] meets on a target, if
    any, in the order of its lookups. *)
Definition lookup_failure (target : gmap string value) : option exn :=
  match target !! "labels" with
  | None => Some (KeyError "labels")
  | Some (VStr _) => Some (AttributeError "get")
  | Some (VLabels _) =>
      match target !! "health" with
      | None => Some (KeyError "health")
      | Some _ =>
          match target !! "scrapeUrl" with
          | None => Some (KeyError "scrapeUrl")
          | Some _ => None
          end
      end
  end.

(** Both queries are answered with a "success" envelope that carries
    data. *)
Definition answers (server : prometheus) (names : list string)
    (targets : list (gmap string value)) : Prop :=
  label_values server = Json (Envelope "success" (Some names)) ∧
  targets_api server
  = Json (Envelope "success" (Some (TargetsData targets))).

(** * The classifier *)

(** ** Strings *)

Lemma prefix_cons (a c : ascii) (pat s : string) :
  String.prefix (String a pat) (String c s)
  = Ascii.eqb a c && String.prefix pat s.
Proof.
  cbn [String.prefix].
  destruct (ascii_dec a c) as [->|Hne].
  - by rewrite Ascii.eqb_refl.
  - apply Ascii.eqb_neq in Hne. by rewrite Hne.
Qed.

Lemma str_in_colon (s : string) : str_in ":" s = contains_colon s.
Proof.
  induction s as [|c s IH]; [done|].
  cbn [str_in contains_colon]. rewrite IH, prefix_cons. f_equal.
  rewrite Ascii.eqb_sym. destruct s; cbn [String.prefix]; apply andb_true_r.
Qed.

(** A string that starts with a pattern holding a colon holds one. *)
Lemma prefix_contains_colon (pat s : string) :
  contains_colon pat = true → String.prefix pat s = true →
  contains_colon s = true.
Proof.
  revert s. induction pat as [|a pat IH]; intros [|c s]; try done.
  rewrite prefix_cons. cbn [contains_colon].
  intros Hpat [Hac Hpre]%andb_true_iff.
  apply Ascii.eqb_eq in Hac as ->.
  apply orb_true_iff in Hpat as [Hc|Hpat].
  - by rewrite Hc.
  - rewrite (IH s Hpat Hpre). apply orb_true_r.
Qed.

Lemma str_in_contains_colon (pat s : string) :
  contains_colon pat = true → str_in pat s = true → contains_colon s = true.
Proof.
  intros Hpat. induction s as [|c s IH]; cbn [str_in].
  - rewrite orb_false_r. by apply prefix_contains_colon.
  - intros [Hpre|Hin]%orb_true_iff.
    + by apply (prefix_contains_colon pat).
    + cbn [contains_colon]. rewrite (IH Hin). apply orb_true_r.
Qed.

Lemma list_in_spec (x : string) (xs : list string) :
  list_in x xs = true ↔ x ∈ xs.
Proof.
  unfold list_in. rewrite existsb_exists. split.
  - intros (y & Hy & ->%String.eqb_eq). by apply list_elem_of_In.
  - intros Hx. exists x. split; [by apply list_elem_of_In|apply String.eqb_refl].
Qed.

Lemma is_recording_rule_colon (metric : string) :
  is_recording_rule metric = contains_colon metric.
Proof.
  unfold is_recording_rule, RECORDING_RULE_PATTERNS. cbn [existsb].
  rewrite str_in_colon. destruct (contains_colon metric) eqn:Hc; [done|].
  repeat match goal with
  | |- context [str_in ?p metric] =>
      destruct (str_in p metric) eqn:?;
      [ exfalso; assert (contains_colon metric = true)
          by (by apply (str_in_contains_colon p)); congruence | ]
  end.
  done.
Qed.

(** ** One append to the dictionary *)

Lemma dict_append_lookup (categorized : gmap string (list string))
    (key metric b : string) :
  default [] (dict_append categorized key metric !! b)
  = default [] (categorized !! b) ++ (if decide (key = b) then [metric] else []).
Proof.
  unfold dict_append. destruct (decide (key = b)) as [->|Hne].
  - by rewrite lookup_insert_eq.
  - rewrite lookup_insert_ne by done. by rewrite app_nil_r.
Qed.

(** Writing a key moves its old value out and the new one in. *)
Lemma map_to_list_overwrite {V} (m : gmap string V) (k : string) (v : V) :
  map_to_list (<[k := v]> m) ≡ₚ (k, v) :: map_to_list (delete k m).
Proof.
  rewrite <- (insert_delete_eq m). apply map_to_list_insert, lookup_delete_eq.
Qed.

Lemma map_to_list_lookup_split {V} (m : gmap string V) (k : string) :
  map_to_list m
  ≡ₚ match m !! k with Some v => [(k, v)] | None => [] end
     ++ map_to_list (delete k m).
Proof.
  destruct (m !! k) as [v|] eqn:Hk.
  - symmetry. by apply map_to_list_delete.
  - by rewrite delete_id.
Qed.

Lemma dict_append_contents (categorized : gmap string (list string))
    (key metric : string) :
  bucket_contents (dict_append categorized key metric)
  ≡ₚ bucket_contents categorized ++ [metric].
Proof.
  unfold bucket_contents, dict_append.
  rewrite map_to_list_overwrite, (map_to_list_lookup_split categorized key).
  destruct (categorized !! key) as [l|]; csimpl.
  - rewrite <- !app_assoc. f_equiv. apply Permutation_app_comm.
  - apply Permutation_cons_append.
Qed.

Section ClassifierFacts.
Variable sources : list (string * source_info).

(** The loop, started from any dictionary: each key gains, in order, the
    metrics the loop body files under it. *)
Lemma categorize_loop_lookup (metrics : list string)
    (categorized : gmap string (list string)) (b : string) :
  default [] (foldl (categorize_step sources) categorized metrics !! b)
  = default [] (categorized !! b)
    ++ filter (fun metric => bucket_of sources metric = b) metrics.
Proof.
  revert categorized.
  induction metrics as [|m metrics IH]; intros categorized; cbn [foldl].
  - by rewrite app_nil_r.
  - rewrite IH. unfold categorize_step.
    rewrite dict_append_lookup, filter_cons, <- app_assoc.
    by destruct (decide (bucket_of sources m = b)).
Qed.

Lemma categorize_loop_contents (metrics : list string)
    (categorized : gmap string (list string)) :
  bucket_contents (foldl (categorize_step sources) categorized metrics)
  ≡ₚ bucket_contents categorized ++ metrics.
Proof.
  revert categorized.
  induction metrics as [|m metrics IH]; intros categorized; cbn [foldl].
  - by rewrite app_nil_r.
  - rewrite IH. unfold categorize_step.
    by rewrite dict_append_contents, <- app_assoc.
Qed.

Lemma categorize_bucket (metrics : list string) (b : string) :
  default [] (categorize_metrics_with sources metrics !! b)
  = filter (fun metric => bucket_of sources metric = b) metrics.
Proof.
  unfold categorize_metrics_with.
  by rewrite categorize_loop_lookup, lookup_empty.
Qed.

(** A metric is listed under a key exactly when it is an input and the
    loop body files it there. *)
Lemma in_bucket_iff (metrics : list string) (b metric : string) :
  in_bucket (categorize_metrics_with sources metrics) b metric
  ↔ metric ∈ metrics ∧ bucket_of sources metric = b.
Proof.
  unfold in_bucket.
  pose proof (categorize_bucket metrics b) as Hb. split.
  - intros (l & Hl & Hin). rewrite Hl in Hb. cbn in Hb. rewrite Hb in Hin.
    apply list_elem_of_filter in Hin. tauto.
  - intros [Hin Hbk].
    assert (metric ∈ default [] (categorize_metrics_with sources metrics !! b))
      as Hd by (rewrite Hb; by apply list_elem_of_filter).
    destruct (categorize_metrics_with sources metrics !! b) as [l|];
      [eauto|by apply elem_of_nil in Hd].
Qed.

Lemma scan_sources_first (earlier later : list (string * source_info))
    (prefix : string) (info : source_info) (metric : string) :
  (∀ p i, (p, i) ∈ earlier → startswith metric p = false) →
  startswith metric prefix = true →
  scan_sources (earlier ++ (prefix, info) :: later) metric
  = Some (name info).
Proof.
  intros Hearlier Hprefix.
  induction earlier as [|[p i] earlier IH]; cbn [app scan_sources].
  - by rewrite Hprefix.
  - rewrite (Hearlier p i) by left.
    apply IH. intros p' i' Hp'. apply (Hearlier p' i'). by right.
Qed.
End ClassifierFacts.

(** ** The shipped table *)

(** Two prefixes of one string are comparable. *)
Lemma prefixes_comparable (p q s : string) :
  String.prefix p s = true → String.prefix q s = true →
  String.prefix p q || String.prefix q p = true.
Proof.
  revert q s. induction p as [|a p IH]; intros q s; [by destruct q|].
  destruct q as [|b q]; [intros; apply orb_true_r|].
  destruct s as [|c s]; [done|].
  rewrite !prefix_cons.
  intros [->%Ascii.eqb_eq Hp]%andb_true_iff [->%Ascii.eqb_eq Hq]%andb_true_iff.
  rewrite Ascii.eqb_refl. cbn [andb]. by apply (IH q s).
Qed.

(** No name starts with the prefixes of two rules of [METRIC_SOURCES]: on
    the shipped table the scan has at most one rule to choose. *)
Lemma metric_sources_prefixes_disjoint (i j : nat)
    (rule rule' : string * source_info) (metric : string) :
  METRIC_SOURCES !! i = Some rule → METRIC_SOURCES !! j = Some rule' →
  startswith metric rule.1 = true → startswith metric rule'.1 = true →
  i = j.
Proof.
  intros Hi Hj Hp Hq.
  pose proof (prefixes_comparable _ _ _ Hp Hq) as Hcmp.
  assert (i < 10 ∧ j < 10)%nat as [Hlti Hltj].
  { apply lookup_lt_Some in Hi, Hj. cbn in Hi, Hj. lia. }
  destruct i as [|[|[|[|[|[|[|[|[|[|i]]]]]]]]]]; try lia;
    injection Hi as <-;
    destruct j as [|[|[|[|[|[|[|[|[|[|j]]]]]]]]]]; try lia;
    injection Hj as <-;
    first [reflexivity | vm_compute in Hcmp; discriminate Hcmp].
Qed.

(** ** Properties of categorize_metrics *)

Lemma not_excluded (metric : string) :
  metric ≠ "up" → metric ≠ "scrape_duration_seconds" →
  metric ≠ "scrape_samples_scraped" →
  list_in metric RECORDING_RULE_EXCLUSIONS = false.
Proof.
  intros H1 H2 H3. apply not_true_is_false. rewrite list_in_spec.
  unfold RECORDING_RULE_EXCLUSIONS. rewrite !elem_of_cons, elem_of_nil. tauto.
Qed.

(** C1. The buckets of [categorize_metrics] partition the input: their
    contents, taken together, are a rearrangement of the input list (every
    name as often as it was given), and every input name is listed under
    exactly one key. *)
Theorem categorize_metrics_partition (metrics : list string) :
  bucket_contents (categorize_metrics metrics) ≡ₚ metrics ∧
  ∀ metric, metric ∈ metrics →
    ∃ b, in_bucket (categorize_metrics metrics) b metric ∧
         ∀ b', in_bucket (categorize_metrics metrics) b' metric → b' = b.
Proof.
  split.
  - unfold categorize_metrics, categorize_metrics_with.
    rewrite categorize_loop_contents.
    unfold bucket_contents. by rewrite map_to_list_empty.
  - intros metric Hin. exists (bucket_of METRIC_SOURCES metric). split.
    + by apply in_bucket_iff.
    + intros b' Hb'. apply in_bucket_iff in Hb'. by destruct Hb'.
Qed.

Lemma categorize_metrics_partition_witness :
  bucket_contents (categorize_metrics ["up"; "node:x"; "up"; "foo"])
    ≡ₚ ["up"; "node:x"; "up"; "foo"] ∧
  ∃ b, in_bucket (categorize_metrics ["up"; "node:x"; "up"; "foo"]) b "up" ∧
       ∀ b', in_bucket (categorize_metrics ["up"; "node:x"; "up"; "foo"])
               b' "up" → b' = b.
Proof.
  destruct (categorize_metrics_partition ["up"; "node:x"; "up"; "foo"])
    as [Hperm Hone].
  split; [exact Hperm|]. apply Hone. apply list_elem_of_here.
Defined.

(** C2. A name in which some entry of [RECORDING_RULE_PATTERNS] occurs and
    which is none of the three literal names is listed under
    "Recording Rules" and under no other key, whatever prefix of
    [METRIC_SOURCES] it starts with. *)
Theorem recording_rules_take_precedence (metrics : list string)
    (metric pattern : string) :
  metric ∈ metrics →
  pattern ∈ RECORDING_RULE_PATTERNS → str_in pattern metric = true →
  metric ≠ "up" → metric ≠ "scrape_duration_seconds" →
  metric ≠ "scrape_samples_scraped" →
  in_bucket (categorize_metrics metrics) "Recording Rules" metric ∧
  ∀ b, in_bucket (categorize_metrics metrics) b metric → b = "Recording Rules".
Proof.
  intros Hin Hpat Hocc H1 H2 H3.
  assert (bucket_of METRIC_SOURCES metric = "Recording Rules") as Hb.
  { unfold bucket_of. rewrite not_excluded by done.
    replace (is_recording_rule metric) with true; [done|].
    symmetry. apply existsb_exists. exists pattern.
    split; [by apply list_elem_of_In|done]. }
  split.
  - by apply in_bucket_iff.
  - intros b [_ <-]%in_bucket_iff. done.
Qed.

Lemma recording_rules_take_precedence_witness :
  startswith "kube_pod:info" "kube_" = true ∧
  in_bucket (categorize_metrics ["kube_pod_info"; "kube_pod:info"])
    "Recording Rules" "kube_pod:info" ∧
  ∀ b, in_bucket (categorize_metrics ["kube_pod_info"; "kube_pod:info"])
         b "kube_pod:info" → b = "Recording Rules".
Proof.
  split; [reflexivity|].
  apply (recording_rules_take_precedence
           ["kube_pod_info"; "kube_pod:info"] "kube_pod:info" ":").
  - apply list_elem_of_further, list_elem_of_here.
  - apply list_elem_of_here.
  - reflexivity.
  - discriminate.
  - discriminate.
  - discriminate.
Defined.

(** C3. First match wins.  In any rule table, when the rule at position
    [i] and a rule declared after it both have a prefix of the name, and
    no rule before position [i] has one, the scan stops at rule [i] and
    yields its display name; a name that reaches the scan (the
    recording-rule test of the loop body does not apply to it) is listed
    under that display name and under no other key. *)
Theorem first_matching_rule_wins (sources : list (string * source_info))
    (i j : nat) (prefixA prefixB : string) (infoA infoB : source_info)
    (metric : string) (metrics : list string) :
  sources !! i = Some (prefixA, infoA) →
  sources !! j = Some (prefixB, infoB) →
  (i < j)%nat →
  startswith metric prefixA = true →
  startswith metric prefixB = true →
  (∀ k p info, (k < i)%nat → sources !! k = Some (p, info) →
               startswith metric p = false) →
  scan_sources sources metric = Some (name infoA) ∧
  (is_recording_rule metric
     && negb (list_in metric RECORDING_RULE_EXCLUSIONS) = false →
   metric ∈ metrics →
   in_bucket (categorize_metrics_with sources metrics) (name infoA) metric ∧
   ∀ b, in_bucket (categorize_metrics_with sources metrics) b metric →
        b = name infoA).
Proof.
  intros HA _ _ HpA _ Hfirst.
  assert (scan_sources sources metric = Some (name infoA)) as Hscan.
  { rewrite <- (take_drop_middle sources i (prefixA, infoA)) by done.
    apply scan_sources_first; [|done].
    intros p info [k Hk]%list_elem_of_lookup.
    apply lookup_take_Some in Hk as [Hk Hlt]. by apply (Hfirst k p info). }
  split; [done|]. intros Hrec Hin.
  assert (bucket_of sources metric = name infoA) as Hb.
  { unfold bucket_of. by rewrite Hrec, Hscan. }
  split.
  - by apply in_bucket_iff.
  - intros b [_ <-]%in_bucket_iff. done.
Qed.

Lemma first_matching_rule_wins_witness :
  scan_sources overlapping_sources "kube_pod_info" = Some "short" ∧
  in_bucket (categorize_metrics_with overlapping_sources ["kube_pod_info"])
    "short" "kube_pod_info".
Proof.
  destruct (first_matching_rule_wins overlapping_sources 1 2 "kube" "kube_"
              (SourceInfo "short" "Rule with the shorter prefix" "any")
              (SourceInfo "long" "Rule with the longer prefix" "any")
              "kube_pod_info" ["kube_pod_info"]) as [Hscan Hcat].
  - reflexivity.
  - reflexivity.
  - lia.
  - reflexivity.
  - reflexivity.
  - intros k p info Hk. destruct k as [|k]; [|lia].
    intros [= <- <-]. reflexivity.
  - split; [exact Hscan|]. apply Hcat.
    + reflexivity.
    + apply list_elem_of_here.
Defined.

(** The guard of the second part is needed: on a table with overlapping
    prefixes a name holding a colon never reaches the scan. *)
Example overlapping_colon_name :
  scan_sources overlapping_sources "kube_pod:info" = Some "short" ∧
  bucket_of overlapping_sources "kube_pod:info" = "Recording Rules".
Proof. split; reflexivity. Qed.

(** C4. Each of [up], [scrape_duration_seconds] and
    [scrape_samples_scraped] passes the recording-rule test, is matched by
    the [up] or the [scrape_] rule before any other rule of
    [METRIC_SOURCES], is listed under "Prometheus", and is not listed under
    "Recording Rules". *)
Theorem excluded_names_go_to_prometheus (metrics : list string)
    (metric : string) :
  metric ∈ RECORDING_RULE_EXCLUSIONS →
  metric ∈ metrics →
  (∃ earlier later prefix info,
     METRIC_SOURCES = earlier ++ (prefix, info) :: later ∧
     (prefix = "up" ∨ prefix = "scrape_") ∧
     name info = "Prometheus" ∧
     startswith metric prefix = true ∧
     Forall (fun rule => startswith metric rule.1 = false) earlier) ∧
  in_bucket (categorize_metrics metrics) "Prometheus" metric ∧
  ¬ in_bucket (categorize_metrics metrics) "Recording Rules" metric.
Proof.
  intros Hex Hin.
  assert (bucket_of METRIC_SOURCES metric = "Prometheus") as Hb.
  { unfold RECORDING_RULE_EXCLUSIONS in Hex.
    rewrite !elem_of_cons, elem_of_nil in Hex.
    destruct Hex as [->|[->|[->|[]]]]; reflexivity. }
  split; [|split].
  - unfold RECORDING_RULE_EXCLUSIONS in Hex.
    rewrite !elem_of_cons, elem_of_nil in Hex.
    destruct Hex as [->|[->|[->|[]]]].
    + exists (take 8 METRIC_SOURCES), (drop 9 METRIC_SOURCES), "up",
        (SourceInfo "Prometheus"
           "Target up/down status (Prometheus internal)" "various").
      repeat split; [by left|]. cbn. repeat constructor.
    + exists (take 9 METRIC_SOURCES), [], "scrape_",
        (SourceInfo "Prometheus"
           "Scrape metadata (Prometheus internal)" "various").
      repeat split; [by right|]. cbn. repeat constructor.
    + exists (take 9 METRIC_SOURCES), [], "scrape_",
        (SourceInfo "Prometheus"
           "Scrape metadata (Prometheus internal)" "various").
      repeat split; [by right|]. cbn. repeat constructor.
  - by apply in_bucket_iff.
  - intros [_ Hrec]%in_bucket_iff. rewrite Hb in Hrec. discriminate.
Qed.

Lemma excluded_names_go_to_prometheus_witness :
  in_bucket
    (categorize_metrics ["scrape_duration_seconds"; "up:x"; "up"])
    "Prometheus" "scrape_duration_seconds" ∧
  ¬ in_bucket
    (categorize_metrics ["scrape_duration_seconds"; "up:x"; "up"])
    "Recording Rules" "scrape_duration_seconds".
Proof.
  apply (excluded_names_go_to_prometheus
           ["scrape_duration_seconds"; "up:x"; "up"]
           "scrape_duration_seconds").
  - apply list_elem_of_further, list_elem_of_here.
  - apply list_elem_of_here.
Defined.

(** C9. Every entry of [RECORDING_RULE_PATTERNS] holds a colon, and the
    test of the loop body (some entry occurs in the name) is the same
    function of the name as the test that the name holds a colon. *)
Theorem recording_rule_test_is_colon_test :
  Forall (fun pattern => contains_colon pattern = true)
         RECORDING_RULE_PATTERNS ∧
  ∀ metric : string,
    existsb (fun pattern => str_in pattern metric) RECORDING_RULE_PATTERNS
    = contains_colon metric.
Proof.
  split.
  - repeat constructor.
  - apply is_recording_rule_colon.
Qed.

Example categorize_spec_example :
  categorize_metrics
    ["up"; "kube_pod_info"; "node_cpu_seconds_total";
     "cluster:node_cpu:sum_rate5m"; "foo_bar"]
  = <["Prometheus" := ["up"]]>
    (<["kube-state-metrics" := ["kube_pod_info"]]>
    (<["node-exporter" := ["node_cpu_seconds_total"]]>
    (<["Recording Rules" := ["cluster:node_cpu:sum_rate5m"]]>
    (<["Other/Unknown" := ["foo_bar"]]> ∅)))).
Proof. vm_compute. exact eq_refl. Qed.

(** * The target aggregator *)

(** ** The defaultdict update *)

Lemma update_job_twice (f g : job_stat → job_stat) (j : string)
    (job_stats : gmap string job_stat) :
  update_job f j (update_job g j job_stats)
  = update_job (fun s => f (g s)) j job_stats.
Proof.
  unfold update_job. by rewrite lookup_insert_eq, insert_insert_eq.
Qed.

Lemma stat_of_update_job (f : job_stat → job_stat) (j j' : string)
    (job_stats : gmap string job_stat) :
  stat_of (update_job f j job_stats) j'
  = if decide (j = j') then f (stat_of job_stats j') else stat_of job_stats j'.
Proof.
  unfold stat_of, update_job. destruct (decide (j = j')) as [->|Hne].
  - by rewrite lookup_insert_eq.
  - by rewrite lookup_insert_ne.
Qed.

(** ** One iteration *)

Lemma job_stats_step_ok (job_stats : gmap string job_stat)
    (target : gmap string value) :
  has_fields target = true →
  ∃ e, endpoint_of target = Some e ∧
       job_stats_step job_stats target = Ok (tally job_stats target e).
Proof.
  unfold has_fields, endpoint_of, job_stats_step, tally, job_of, is_up, getitem.
  destruct (target !! "labels") as [[|target_labels]|]; try done.
  destruct (target !! "health") as [h|]; try done.
  destruct (target !! "scrapeUrl") as [u|]; try done.
  intros _. eexists. split; [done|]. cbn.
  destruct (eq_str h "up"); rewrite ?update_job_twice;
    unfold append_endpoint, incr_up, incr_count; cbn;
    [done|].
  f_equal. unfold update_job. f_equal. f_equal. symmetry. apply Z.add_0_r.
Qed.

Lemma job_stats_step_raises (job_stats : gmap string job_stat)
    (target : gmap string value) :
  has_fields target = false →
  ∃ e, job_stats_step job_stats target = Raise e.
Proof.
  unfold has_fields, job_stats_step, getitem.
  destruct (target !! "labels") as [[|target_labels]|]; cbn; eauto.
  destruct (target !! "health") as [h|]; cbn; eauto.
  destruct (target !! "scrapeUrl") as [u|]; cbn; eauto.
  done.
Qed.

(** ** The loop *)

Lemma job_stats_loop_cons (job_stats : gmap string job_stat)
    (target : gmap string value) (targets : list (gmap string value))
    (r : gmap string job_stat) :
  job_stats_loop job_stats (target :: targets) = Ok r →
  ∃ e, has_fields target = true ∧ endpoint_of target = Some e ∧
       job_stats_loop (tally job_stats target e) targets = Ok r.
Proof.
  cbn [job_stats_loop]. destruct (has_fields target) eqn:Hf.
  - destruct (job_stats_step_ok job_stats target Hf) as (e & He & ->).
    cbn. eauto.
  - destruct (job_stats_step_raises job_stats target Hf) as (e & ->).
    cbn. discriminate.
Qed.

(** Induction along a run of the loop that ends without an exception. *)
Lemma job_stats_loop_ind
    (P : gmap string job_stat → list (gmap string value)
         → gmap string job_stat → Prop) :
  (∀ job_stats, P job_stats [] job_stats) →
  (∀ job_stats target e targets r,
     has_fields target = true → endpoint_of target = Some e →
     job_stats_loop (tally job_stats target e) targets = Ok r →
     P (tally job_stats target e) targets r →
     P job_stats (target :: targets) r) →
  ∀ job_stats targets r,
    job_stats_loop job_stats targets = Ok r → P job_stats targets r.
Proof.
  intros Hnil Hcons job_stats targets. revert job_stats.
  induction targets as [|target targets IH]; intros job_stats r Hrun.
  - injection Hrun as <-. apply Hnil.
  - apply job_stats_loop_cons in Hrun as (e & Hf & He & Hrun). eauto.
Qed.

Lemma job_stats_loop_total (job_stats : gmap string job_stat)
    (targets : list (gmap string value)) :
  Forall (fun target => has_fields target = true) targets →
  ∃ r, job_stats_loop job_stats targets = Ok r.
Proof.
  intros Hall. revert job_stats.
  induction Hall as [|target targets Hf _ IH]; intros job_stats.
  - by exists job_stats.
  - destruct (job_stats_step_ok job_stats target Hf) as (e & _ & Hstep).
    cbn [job_stats_loop]. rewrite Hstep. apply IH.
Qed.

Lemma job_stats_loop_fields (job_stats : gmap string job_stat)
    (targets : list (gmap string value)) (r : gmap string job_stat) :
  job_stats_loop job_stats targets = Ok r →
  Forall (fun target => has_fields target = true) targets.
Proof.
  revert job_stats targets r. apply job_stats_loop_ind; by constructor.
Qed.

(** ** What one tally changes *)

Lemma stat_of_tally (job_stats : gmap string job_stat)
    (target : gmap string value) (e : endpoint) (j : string) :
  stat_of (tally job_stats target e) j
  = if decide (job_of target = j)
    then JobStat (count (stat_of job_stats j) + 1)
                 (up (stat_of job_stats j) + (if is_up target then 1 else 0))
                 (endpoints (stat_of job_stats j) ++ [e])
    else stat_of job_stats j.
Proof. unfold tally. by rewrite stat_of_update_job. Qed.

Lemma dom_tally (job_stats : gmap string job_stat)
    (target : gmap string value) (e : endpoint) :
  dom (tally job_stats target e) = {[job_of target]} ∪ dom job_stats.
Proof. unfold tally, update_job. apply dom_insert_L. Qed.

Lemma total_count_insert (job_stats : gmap string job_stat) (j : string)
    (s : job_stat) :
  total_count (<[j := s]> job_stats)
  = total_count job_stats - count (stat_of job_stats j) + count s.
Proof.
  unfold total_count, stat_of.
  rewrite <- (insert_delete_eq job_stats).
  rewrite map_fold_insert_L; [|intros; lia|apply lookup_delete_eq].
  destruct (job_stats !! j) as [s0|] eqn:Hj; cbn.
  - rewrite (map_fold_delete_L _ _ j s0 job_stats); [lia|intros; lia|done].
  - rewrite delete_id by done. lia.
Qed.

Lemma total_count_tally (job_stats : gmap string job_stat)
    (target : gmap string value) (e : endpoint) :
  total_count (tally job_stats target e) = total_count job_stats + 1.
Proof.
  unfold tally, update_job. rewrite total_count_insert. cbn.
  unfold stat_of. lia.
Qed.

Lemma all_endpoints_tally (job_stats : gmap string job_stat)
    (target : gmap string value) (e : endpoint) :
  all_endpoints (tally job_stats target e) ≡ₚ all_endpoints job_stats ++ [e].
Proof.
  unfold all_endpoints, tally, update_job.
  rewrite map_to_list_overwrite,
    (map_to_list_lookup_split job_stats (job_of target)).
  destruct (job_stats !! job_of target) as [s|]; csimpl.
  - rewrite <- !app_assoc. f_equiv. apply Permutation_app_comm.
  - apply Permutation_cons_append.
Qed.

(** ** What a whole run builds *)

Lemma job_stats_loop_stat (j : string) (job_stats : gmap string job_stat)
    (targets : list (gmap string value)) (r : gmap string job_stat) :
  job_stats_loop job_stats targets = Ok r →
  count (stat_of r j)
    = count (stat_of job_stats j)
      + Z.of_nat (length (filter (fun target => job_of target = j) targets)) ∧
  up (stat_of r j)
    = up (stat_of job_stats j)
      + Z.of_nat (length (filter (fun target => is_up target = true)
                            (filter (fun target => job_of target = j)
                               targets))) ∧
  endpoints (stat_of r j)
    = endpoints (stat_of job_stats j)
      ++ omap endpoint_of (filter (fun target => job_of target = j) targets).
Proof.
  revert job_stats targets r. apply job_stats_loop_ind.
  - intros job_stats. cbn. rewrite app_nil_r. repeat split; lia.
  - intros job_stats target e targets r _ He _ (Hc & Hu & Hes).
    rewrite Hc, Hu, Hes, stat_of_tally, filter_cons.
    destruct (decide (job_of target = j)) as [Hj|Hj]; [|done].
    cbn [count up endpoints]. rewrite filter_cons.
    cbn [omap list_omap]. rewrite He, <- app_assoc.
    destruct (is_up target).
    + rewrite decide_True by done. cbn [length]. repeat split; try lia; done.
    + rewrite decide_False by done. cbn [length]. repeat split; try lia; done.
Qed.

Lemma job_stats_loop_dom (job_stats : gmap string job_stat)
    (targets : list (gmap string value)) (r : gmap string job_stat) :
  job_stats_loop job_stats targets = Ok r →
  dom r = dom job_stats ∪ list_to_set (job_of <$> targets).
Proof.
  revert job_stats targets r. apply job_stats_loop_ind.
  - intros job_stats. cbn. by rewrite (right_id_L ∅ (∪)).
  - intros job_stats target e targets r _ _ _ ->.
    rewrite dom_tally. cbn.
    by rewrite (comm_L (∪) {[job_of target]} (dom job_stats)), (assoc_L (∪)).
Qed.

Lemma job_stats_loop_total_count (job_stats : gmap string job_stat)
    (targets : list (gmap string value)) (r : gmap string job_stat) :
  job_stats_loop job_stats targets = Ok r →
  total_count r = total_count job_stats + Z.of_nat (length targets).
Proof.
  revert job_stats targets r. apply job_stats_loop_ind.
  - intros job_stats. cbn. lia.
  - intros job_stats target e targets r _ _ _ ->.
    rewrite total_count_tally. cbn [length]. lia.
Qed.

Lemma job_stats_loop_endpoints (job_stats : gmap string job_stat)
    (targets : list (gmap string value)) (r : gmap string job_stat) :
  job_stats_loop job_stats targets = Ok r →
  all_endpoints r ≡ₚ all_endpoints job_stats ++ omap endpoint_of targets ∧
  length (omap endpoint_of targets) = length targets.
Proof.
  revert job_stats targets r. apply job_stats_loop_ind.
  - intros job_stats. cbn. by rewrite app_nil_r.
  - intros job_stats target e targets r _ He _ [-> Hlen].
    cbn [omap list_omap]. rewrite He, all_endpoints_tally, <- app_assoc.
    cbn [length]. by rewrite Hlen.
Qed.

(** The loop keeps every entry's healthy count between 0 and its count. *)
Lemma job_stats_loop_bounds (job_stats : gmap string job_stat)
    (targets : list (gmap string value)) (r : gmap string job_stat) :
  job_stats_loop job_stats targets = Ok r →
  (∀ j, 0 ≤ up (stat_of job_stats j) ≤ count (stat_of job_stats j)) →
  ∀ j, 0 ≤ up (stat_of r j) ≤ count (stat_of r j).
Proof.
  revert job_stats targets r.
  apply (job_stats_loop_ind (fun job_stats _ r =>
    (∀ j, 0 ≤ up (stat_of job_stats j) ≤ count (stat_of job_stats j)) →
    ∀ j, 0 ≤ up (stat_of r j) ≤ count (stat_of r j))); [done|].
  intros job_stats target e targets r _ _ _ IH Hacc. apply IH. intros j.
  rewrite stat_of_tally. specialize (Hacc j).
  destruct (decide (job_of target = j)); [|done].
  cbn [count up]. destruct (is_up target); lia.
Qed.

Lemma stat_of_lookup (job_stats : gmap string job_stat) (j : string)
    (s : job_stat) :
  job_stats !! j = Some s → stat_of job_stats j = s.
Proof. unfold stat_of. by intros ->. Qed.

Lemma stat_of_empty (j : string) : stat_of ∅ j = fresh_stat.
Proof. unfold stat_of. by rewrite lookup_empty. Qed.

(** ** Properties of get_job_stats *)

Example get_job_stats_sample : get_job_stats sample_targets = Ok sample_stats.
Proof. vm_compute. exact eq_refl. Qed.

Example get_job_stats_missing_health :
  get_job_stats [node_up; delete "health" node_down]
  = Raise (KeyError "health").
Proof. vm_compute. exact eq_refl. Qed.

(** C5. In the result of [get_job_stats], the healthy count of a job does
    not exceed its target count. *)
Theorem healthy_count_le_target_count (targets : list (gmap string value))
    (r : gmap string job_stat) (j : string) (s : job_stat) :
  get_job_stats targets = Ok r → r !! j = Some s → up s ≤ count s.
Proof.
  intros Hrun Hj. rewrite <- (stat_of_lookup r j s Hj).
  apply (job_stats_loop_bounds ∅ targets r Hrun).
  intros j'. rewrite stat_of_empty. cbn. lia.
Qed.

Lemma healthy_count_le_target_count_witness :
  up (stat_of sample_stats "node-exporter")
  ≤ count (stat_of sample_stats "node-exporter").
Proof.
  apply (healthy_count_le_target_count sample_targets sample_stats
           "node-exporter").
  - vm_compute. exact eq_refl.
  - vm_compute. exact eq_refl.
Defined.

(** C6. Reordering the targets changes neither the jobs of the result nor
    any job's target count or healthy count: when [get_job_stats] returns
    on a list it returns on every rearrangement of it, with the same keys
    and, key by key, the same two counts. *)
Theorem get_job_stats_reordering (targets targets' : list (gmap string value))
    (r : gmap string job_stat) :
  targets ≡ₚ targets' →
  get_job_stats targets = Ok r →
  ∃ r', get_job_stats targets' = Ok r' ∧
        dom r' = dom r ∧
        ∀ j s, r !! j = Some s →
          ∃ s', r' !! j = Some s' ∧ count s' = count s ∧ up s' = up s.
Proof.
  intros Hperm Hrun. unfold get_job_stats in *.
  destruct (job_stats_loop_total ∅ targets') as [r' Hrun'].
  { rewrite <- Hperm. by apply (job_stats_loop_fields ∅ targets r). }
  assert (dom r' = dom r) as Hdom.
  { rewrite (job_stats_loop_dom _ _ _ Hrun), (job_stats_loop_dom _ _ _ Hrun').
    f_equal. apply list_to_set_perm_L. by rewrite Hperm. }
  exists r'. split; [done|]. split; [done|]. intros j s Hj.
  assert (is_Some (r' !! j)) as [s' Hj'].
  { apply elem_of_dom. rewrite Hdom. apply elem_of_dom. eauto. }
  exists s'. split; [done|].
  destruct (job_stats_loop_stat j _ _ _ Hrun) as (Hc & Hu & _).
  destruct (job_stats_loop_stat j _ _ _ Hrun') as (Hc' & Hu' & _).
  rewrite (stat_of_lookup _ _ _ Hj) in Hc, Hu.
  rewrite (stat_of_lookup _ _ _ Hj') in Hc', Hu'.
  rewrite Hc, Hc', Hu, Hu'. by rewrite Hperm.
Qed.

Lemma get_job_stats_reordering_witness :
  ∃ r', get_job_stats (rev sample_targets) = Ok r' ∧
        dom r' = dom sample_stats ∧
        ∀ j s, sample_stats !! j = Some s →
          ∃ s', r' !! j = Some s' ∧ count s' = count s ∧ up s' = up s.
Proof.
  apply (get_job_stats_reordering sample_targets (rev sample_targets)).
  - apply Permutation_rev.
  - vm_compute. exact eq_refl.
Defined.

(** C7. [get_job_stats] neither drops nor repeats a target: the target
    counts of all jobs add up to the length of the input, every target
    yields one endpoint record, the records held by all jobs together are
    a rearrangement of the records of the input, and the list of a job
    holds, in input order, the records of exactly the targets of that
    job. *)
Theorem get_job_stats_conserves_targets (targets : list (gmap string value))
    (r : gmap string job_stat) :
  get_job_stats targets = Ok r →
  total_count r = Z.of_nat (length targets) ∧
  length (omap endpoint_of targets) = length targets ∧
  all_endpoints r ≡ₚ omap endpoint_of targets ∧
  ∀ j s, r !! j = Some s →
    count s = Z.of_nat (length (endpoints s)) ∧
    endpoints s
    = omap endpoint_of (filter (fun target => job_of target = j) targets).
Proof.
  intros Hrun. unfold get_job_stats in Hrun.
  pose proof (job_stats_loop_total_count _ _ _ Hrun) as Htotal.
  destruct (job_stats_loop_endpoints _ _ _ Hrun) as [Hall Hlen].
  assert (total_count (∅ : gmap string job_stat) = 0) as Hzero
    by apply map_fold_empty.
  assert (all_endpoints ∅ = []) as Hnone
    by (unfold all_endpoints; by rewrite map_to_list_empty).
  rewrite Hzero in Htotal. rewrite Hnone in Hall.
  split; [lia|]. split; [done|]. split; [done|]. intros j s Hj.
  destruct (job_stats_loop_stat j _ _ _ Hrun) as (Hc & _ & Hes).
  rewrite (stat_of_lookup _ _ _ Hj), stat_of_empty in Hc, Hes.
  cbn in Hc, Hes. split; [|done].
  rewrite Hc, Hes. f_equal.
  assert (Forall (fun target => has_fields target = true)
            (filter (fun target => job_of target = j) targets)) as Hf.
  { apply Forall_forall. intros t [_ Ht]%list_elem_of_filter. revert t Ht.
    apply Forall_forall. by apply (job_stats_loop_fields ∅ targets r). }
  destruct (job_stats_loop_total ∅ _ Hf) as [r' Hrun'].
  by destruct (job_stats_loop_endpoints _ _ _ Hrun') as [_ ->].
Qed.

Lemma get_job_stats_conserves_targets_witness :
  total_count sample_stats = Z.of_nat (length sample_targets) ∧
  length (omap endpoint_of sample_targets) = length sample_targets ∧
  all_endpoints sample_stats ≡ₚ omap endpoint_of sample_targets ∧
  ∀ j s, sample_stats !! j = Some s →
    count s = Z.of_nat (length (endpoints s)) ∧
    endpoints s
    = omap endpoint_of
        (filter (fun target => job_of target = j) sample_targets).
Proof.
  apply (get_job_stats_conserves_targets sample_targets sample_stats).
  vm_compute. exact eq_refl.
Defined.

(** C10. [get_job_stats] returns exactly when every target has a
    ["labels"] mapping, a ["health"] field and a ["scrapeUrl"] field: under
    that precondition no lookup raises, a label set without ["job"]
    included, and without it the call ends in an exception. *)
Theorem get_job_stats_total_iff (targets : list (gmap string value)) :
  (∃ r, get_job_stats targets = Ok r)
  ↔ Forall (fun target => has_fields target = true) targets.
Proof.
  split.
  - intros [r Hrun]. by apply (job_stats_loop_fields ∅ targets r).
  - apply job_stats_loop_total.
Qed.

Lemma get_job_stats_total_iff_witness :
  has_fields no_job = true ∧ job_of no_job = "unknown" ∧
  ∃ r, get_job_stats sample_targets = Ok r.
Proof.
  split; [reflexivity|]. split; [reflexivity|].
  apply (get_job_stats_total_iff sample_targets).
  repeat constructor.
Defined.

(** * The process *)

Example run_json_success :
  run rejects_red (Args true false)
      (Prometheus (Json (Envelope "success" (Some ["up"; "foo:bar"; "a"])))
                  (Json (Envelope "success"
                           (Some (TargetsData sample_targets)))))
  = (0, Streams
          [JsonReport
             (JsonOutput PROMETHEUS_URL 3
                {[ "Other/Unknown" := (1, ["a"]);
                   "Recording Rules" := (1, ["foo:bar"]);
                   "Prometheus" := (1, ["up"]) ]}
                sample_stats)]
          []).
Proof. vm_compute. exact eq_refl. Qed.

Example run_text_http_500 :
  run rejects_red (Args false false)
      (outcomes
         (HttpServer
            (Response 200 "200 OK" (Decoded (Envelope "success" (Some ["up"]))))
            (Response 500 "500 Server Error"
               (Decoded (Envelope "success" (Some (TargetsData [])))))))
  = (1, Streams [Progress]
          ["Error querying Prometheus: 500 Server Error"]).
Proof. vm_compute. exact eq_refl. Qed.

Lemma query_fails_status {A} (body : envelope A) :
  query_fails (Json body) → String.eqb (status body) "success" = false.
Proof. cbn. intros Hne. by apply String.eqb_neq. Qed.

(** ** The runs that end before the report, outcome by outcome *)

Lemma run_names_exception (rejects : string → bool) (args : arguments)
    (server : prometheus) (e : string) :
  label_values server = RequestException e →
  run rejects args server
  = (1, Streams (if json args then [] else [Progress])
          ["Error querying Prometheus: " +:+ e]).
Proof.
  destruct args as [[] all], server as [lv ta]; cbn [label_values];
    intros ->; reflexivity.
Qed.

Lemma run_names_status (rejects : string → bool) (args : arguments)
    (server : prometheus) (body : envelope (list string)) :
  label_values server = Json body → status body ≠ "success" →
  run rejects args server
  = (1, Streams (if json args then [] else [Progress])
          ["Failed to get metrics from Prometheus"]).
Proof.
  destruct args as [[] all], server as [lv ta]; cbn [label_values];
    intros -> Hne%String.eqb_neq; unfold_run; rewrite Hne; reflexivity.
Qed.

Lemma run_names_nodata (rejects : string → bool) (args : arguments)
    (server : prometheus) (body : envelope (list string)) :
  label_values server = Json body → status body = "success" →
  data body = None →
  run rejects args server
  = (1, Streams (if json args then [] else [Progress]) ["Traceback"]).
Proof.
  destruct args as [[] all], server as [lv ta]; cbn [label_values];
    intros -> Hs%String.eqb_eq Hd; unfold_run; rewrite Hs;
    cbn -[get_job_stats categorize_metrics sorted];
    rewrite Hd; reflexivity.
Qed.

Lemma run_targets_exception (rejects : string → bool) (args : arguments)
    (server : prometheus) (names : list string) (e : string) :
  label_values server = Json (Envelope "success" (Some names)) →
  targets_api server = RequestException e →
  run rejects args server
  = (1, Streams (if json args then [] else [Progress])
          ["Error querying Prometheus: " +:+ e]).
Proof.
  destruct args as [[] all], server as [lv ta];
    cbn [label_values targets_api]; intros -> ->; reflexivity.
Qed.

Lemma run_targets_status (rejects : string → bool) (args : arguments)
    (server : prometheus) (names : list string)
    (body : envelope targets_data) :
  label_values server = Json (Envelope "success" (Some names)) →
  targets_api server = Json body → status body ≠ "success" →
  run rejects args server
  = (1, Streams (if json args then [] else [Progress])
          ["Failed to get targets from Prometheus"]).
Proof.
  destruct args as [[] all], server as [lv ta];
    cbn [label_values targets_api]; intros -> -> Hne%String.eqb_neq;
    unfold_run; rewrite Hne; reflexivity.
Qed.

Lemma run_targets_nodata (rejects : string → bool) (args : arguments)
    (server : prometheus) (names : list string)
    (body : envelope targets_data) :
  label_values server = Json (Envelope "success" (Some names)) →
  targets_api server = Json body → status body = "success" →
  data body = None →
  run rejects args server
  = (1, Streams (if json args then [] else [Progress]) ["Traceback"]).
Proof.
  destruct args as [[] all], server as [lv ta];
    cbn [label_values targets_api]; intros -> -> Hs%String.eqb_eq Hd;
    unfold_run; rewrite Hs; cbn -[get_job_stats categorize_metrics sorted];
    rewrite Hd; reflexivity.
Qed.

Lemma run_job_stats_raise (rejects : string → bool) (args : arguments)
    (server : prometheus) (names : list string)
    (targets : list (gmap string value)) (e : exn) :
  answers server names targets → get_job_stats targets = Raise e →
  run rejects args server
  = (1, Streams (if json args then [] else [Progress]) ["Traceback"]).
Proof.
  destruct args as [[] all], server as [lv ta]; unfold answers;
    cbn [label_values targets_api]; intros [-> ->] Hrun;
    unfold_run; rewrite Hrun; reflexivity.
Qed.

(** With both answers and a result of [get_job_stats], a run is the
    progress line of text mode followed by the printing of the report. *)
Lemma run_answers (rejects : string → bool) (args : arguments)
    (server : prometheus) (names : list string)
    (targets : list (gmap string value)) (r : gmap string job_stat) :
  answers server names targets → get_job_stats targets = Ok r →
  run rejects args server
  = match
      (if json args
       then print_json (categorize_metrics (sorted names)) r
       else print_summary rejects (categorize_metrics (sorted names)) r;;
            if show_all args
            then print_out AllMetricsTitle;; print_each rejects (sorted names)
            else mret tt)
        (Streams (if json args then [] else [Progress]) [])
    with
    | (Returns _, w) => (0, w)
    | (SysExit code, w) => (code, w)
    | (Uncaught e, w) =>
        (1, Streams (stdout w) (stderr w ++ ["Traceback"]))
    end.
Proof.
  destruct args as [[] all], server as [lv ta]; unfold answers;
    cbn [label_values targets_api]; intros [-> ->] Hrun;
    unfold run, main, get_all_metrics, get_targets, query_prometheus,
      getdata, lift, print_out, mbind, mret, io_bind, io_ret;
    cbn -[get_job_stats categorize_metrics sorted print_summary print_each
          print_json];
    rewrite Hrun; reflexivity.
Qed.

Lemma run_success_json (rejects : string → bool) (all : bool)
    (server : prometheus) (names : list string)
    (targets : list (gmap string value)) (r : gmap string job_stat) :
  answers server names targets → get_job_stats targets = Ok r →
  run rejects (Args true all) server
  = (0, Streams
          [JsonReport
             (JsonOutput PROMETHEUS_URL
                (map_fold
                   (fun _ metrics acc => Z.of_nat (length metrics) + acc)
                   0 (categorize_metrics (sorted names)))
                ((fun metrics => (Z.of_nat (length metrics), metrics))
                   <$> categorize_metrics (sorted names))
                r)]
          []).
Proof.
  intros Ha Hrun.
  by rewrite (run_answers rejects _ server names targets r Ha Hrun).
Qed.

(** Every run either has both answers and a result of [get_job_stats], or
    ends with status 1, one line on the error stream and nothing but the
    progress line of text mode on standard output. *)
Lemma run_cases (rejects : string → bool) (args : arguments)
    (server : prometheus) :
  (∃ names targets r,
     answers server names targets ∧ get_job_stats targets = Ok r) ∨
  ((∃ msg, run rejects args server
           = (1, Streams (if json args then [] else [Progress]) [msg])) ∧
   ¬ ∃ names targets,
       answers server names targets ∧
       Forall (fun target => has_fields target = true) targets).
Proof.
  destruct (label_values server) as [e|[st [names|]]] eqn:Hlv.
  - right. split; [eexists; by apply run_names_exception|].
    intros (? & ? & [? _] & _). congruence.
  - destruct (decide (st = "success")) as [->|Hst].
    + destruct (targets_api server) as [e|[st' [[targets]|]]] eqn:Hta.
      * right. split; [eexists; by eapply run_targets_exception|].
        intros (? & ? & [_ ?] & _). congruence.
      * destruct (decide (st' = "success")) as [->|Hst'].
        -- destruct (get_job_stats targets) as [r|e] eqn:Hrun.
           ++ left. by exists names, targets, r.
           ++ right. split.
              ** eexists.
                 by eapply (run_job_stats_raise _ _ _ names targets).
              ** intros (names' & targets' & [_ Ha] & Hall).
                 rewrite Hta in Ha. injection Ha as <-.
                 destruct (job_stats_loop_total ∅ targets Hall) as [r Hr].
                 unfold get_job_stats in Hrun. congruence.
        -- right. split; [eexists; by eapply run_targets_status|].
           intros (? & ? & [_ ?] & _). congruence.
      * destruct (decide (st' = "success")) as [->|Hst'].
        -- right. split; [eexists; by eapply run_targets_nodata|].
           intros (? & ? & [_ ?] & _). congruence.
        -- right. split; [eexists; by eapply run_targets_status|].
           intros (? & ? & [_ ?] & _). congruence.
    + right. split; [eexists; by eapply run_names_status|].
      intros (? & ? & [? _] & _). congruence.
  - right. destruct (decide (st = "success")) as [->|Hst].
    + split; [eexists; by eapply run_names_nodata|].
      intros (? & ? & [? _] & _). congruence.
    + split; [eexists; by eapply run_names_status|].
      intros (? & ? & [? _] & _). congruence.
Qed.

(** ** Failed queries *)

Lemma raise_for_status_iff (status_code : Z) :
  raise_for_status status_code = true ↔ 400 ≤ status_code < 600.
Proof. unfold raise_for_status. rewrite andb_true_iff. lia. Qed.

(** A query that fails at the level of HTTP leaves its [try] block with an
    exception or with an envelope that does not say "success". *)
Lemma exchange_fails_outcome {A} (x : exchange A) :
  exchange_fails x → query_fails (try_request x).
Proof.
  destruct x as [e|status_code http_error content]; cbn; [done|].
  destruct (raise_for_status status_code) eqn:Hraise; [done|].
  intros [Hcode|Hstatus].
  - apply raise_for_status_iff in Hcode. congruence.
  - by destruct content.
Qed.

Lemma query_fails_no_answer (server : prometheus) (names : list string)
    (targets : list (gmap string value)) :
  query_fails (label_values server) ∨ query_fails (targets_api server) →
  ¬ answers server names targets.
Proof.
  intros [Hfail|Hfail] [Hlv Hta].
  - rewrite Hlv in Hfail. by cbn in Hfail.
  - rewrite Hta in Hfail. by cbn in Hfail.
Qed.

Lemma run_names_fails (rejects : string → bool) (args : arguments)
    (server : http_server) :
  exchange_fails (label_values_http server) →
  run rejects args (outcomes server)
  = (1, Streams (if json args then [] else [Progress])
          [failure_message "metrics" (label_values_http server)]).
Proof.
  intros Hfail%exchange_fails_outcome. unfold failure_message.
  destruct (try_request (label_values_http server)) as [e|d] eqn:Htry.
  - by apply run_names_exception.
  - by apply (run_names_status rejects args (outcomes server) d).
Qed.

Lemma run_targets_fails (rejects : string → bool) (args : arguments)
    (server : http_server) (names : list string) :
  try_request (label_values_http server)
  = Json (Envelope "success" (Some names)) →
  exchange_fails (targets_http server) →
  run rejects args (outcomes server)
  = (1, Streams (if json args then [] else [Progress])
          [failure_message "targets" (targets_http server)]).
Proof.
  intros Hnames Hfail%exchange_fails_outcome. unfold failure_message.
  destruct (try_request (targets_http server)) as [e|d] eqn:Htry.
  - by apply (run_targets_exception rejects args (outcomes server) names).
  - by apply (run_targets_status rejects args (outcomes server) names d).
Qed.

(** C8, as amended.  When the label-values query or the targets query
    fails (no response: connection failure or timeout; a response with a
    status from 400 to 599, such as 500; or a decoded envelope whose status
    is not "success"), the run ends with exit status 1, something has been
    written to the error stream, and standard output holds no report (in
    text mode it holds the progress line printed before the queries).
    The line on the error stream is the one the script prints for the
    query that failed: when the first query fails, and when the second
    fails after the first has delivered the names, the error stream holds
    exactly that line, "Error querying Prometheus: ..." with the text of
    the exception, or "Failed to get ... from Prometheus". *)
Theorem failed_query_exits_1 (rejects : string → bool) (args : arguments)
    (server : http_server) :
  exchange_fails (label_values_http server)
  ∨ exchange_fails (targets_http server) →
  (∃ out err,
     run rejects args (outcomes server) = (1, Streams out err) ∧
     err ≠ [] ∧
     Forall (fun item => is_report item = false) out) ∧
  (exchange_fails (label_values_http server) →
   run rejects args (outcomes server)
   = (1, Streams (if json args then [] else [Progress])
           [failure_message "metrics" (label_values_http server)])) ∧
  (∀ names,
     try_request (label_values_http server)
     = Json (Envelope "success" (Some names)) →
     exchange_fails (targets_http server) →
     run rejects args (outcomes server)
     = (1, Streams (if json args then [] else [Progress])
             [failure_message "targets" (targets_http server)])).
Proof.
  intros Hfail. split; [|split].
  - destruct (run_cases rejects args (outcomes server))
      as [(names & targets & r & Ha & _)|[[msg Hmsg] _]].
    + exfalso. revert Ha. apply query_fails_no_answer.
      destruct Hfail as [H|H]; [left|right]; by apply exchange_fails_outcome.
    + exists (if json args then [] else [Progress]), [msg].
      split; [done|]. split; [done|].
      destruct (json args); repeat constructor.
  - apply run_names_fails.
  - apply run_targets_fails.
Qed.

Lemma failed_query_exits_1_witness :
  run rejects_red (Args true false)
    (outcomes
       (HttpServer
          (Response 200 "200 OK" (Decoded (Envelope "success" (Some ["up"]))))
          (Response 500 "500 Server Error: Internal Server Error"
             (NotJson "Expecting value"))))
  = (1, Streams []
          ["Error querying Prometheus: 500 Server Error: Internal Server Error"]).
Proof.
  destruct (failed_query_exits_1 rejects_red (Args true false)
              (HttpServer
                 (Response 200 "200 OK"
                    (Decoded (Envelope "success" (Some ["up"]))))
                 (Response 500 "500 Server Error: Internal Server Error"
                    (NotJson "Expecting value"))))
    as (_ & _ & Htargets).
  - right. cbn. left. lia.
  - apply (Htargets ["up"]).
    + reflexivity.
    + cbn. left. lia.
Defined.

(** A status that is not 2xx does not fail a query by itself: a response
    with status 300 and a "success" body is processed like any other, and
    the run ends with status 0 and the report on standard output. *)
Lemma status_300_is_processed :
  label_values_http status_300_server
  = Response 300 "300 Multiple Choices"
      (Decoded (Envelope "success" (Some ["up"; "b:c"; "a"]))) ∧
  ¬ 200 ≤ 300 < 300 ∧
  (run rejects_red (Args true false) (outcomes status_300_server)).1 = 0 ∧
  stderr (run rejects_red (Args true false) (outcomes status_300_server)).2
  = [] ∧
  ∃ output,
    stdout (run rejects_red (Args true false) (outcomes status_300_server)).2
    = [JsonReport output].
Proof.
  split; [reflexivity|]. split; [lia|].
  split; [vm_compute; exact eq_refl|]. split; [vm_compute; exact eq_refl|].
  eexists. vm_compute. exact eq_refl.
Qed.

(** * Further properties of the classifier *)

Lemma dict_append_nonempty (categorized : gmap string (list string))
    (key metric : string) :
  map_Forall (fun _ l => l ≠ []) categorized →
  map_Forall (fun _ l => l ≠ []) (dict_append categorized key metric).
Proof.
  intros Hall. unfold dict_append. apply map_Forall_insert_2; [|done].
  by destruct (default [] (categorized !! key)).
Qed.

Lemma categorize_loop_nonempty (sources : list (string * source_info))
    (metrics : list string) (categorized : gmap string (list string)) :
  map_Forall (fun _ l => l ≠ []) categorized →
  map_Forall (fun _ l => l ≠ [])
    (foldl (categorize_step sources) categorized metrics).
Proof.
  revert categorized.
  induction metrics as [|m metrics IH]; intros categorized Hall; [done|].
  cbn [foldl]. apply IH. by apply dict_append_nonempty.
Qed.

Lemma scan_sources_Some (rules : list (string * source_info))
    (metric b : string) :
  scan_sources rules metric = Some b →
  ∃ k prefix info,
    rules !! k = Some (prefix, info) ∧ name info = b ∧
    startswith metric prefix = true.
Proof.
  induction rules as [|[p i] rules IH]; cbn [scan_sources]; [done|].
  destruct (startswith metric p) eqn:Hp.
  - intros [= <-]. by exists 0%nat, p, i.
  - intros (k & prefix & info & Hk & Hb & Hpre)%IH.
    by exists (S k), prefix, info.
Qed.

Lemma scan_sources_None (rules : list (string * source_info))
    (metric : string) :
  scan_sources rules metric = None ↔
  Forall (fun rule => startswith metric rule.1 = false) rules.
Proof.
  induction rules as [|[p i] rules IH]; cbn [scan_sources].
  - split; [constructor|done].
  - destruct (startswith metric p) eqn:Hp.
    + split; [done|]. intros Hall. apply Forall_cons in Hall as [Hp' _].
      cbn in Hp'. congruence.
    + rewrite IH. split; [by constructor|]. by intros [_ ?]%Forall_cons.
Qed.

(** The key the loop body picks is "Recording Rules", "Other/Unknown" or
    the display name of a rule. *)
Lemma bucket_of_cases (sources : list (string * source_info))
    (metric : string) :
  bucket_of sources metric = "Recording Rules" ∨
  bucket_of sources metric = "Other/Unknown" ∨
  ∃ k prefix info,
    sources !! k = Some (prefix, info) ∧
    name info = bucket_of sources metric ∧
    startswith metric prefix = true.
Proof.
  unfold bucket_of.
  destruct (is_recording_rule metric && _); [by left|right].
  destruct (scan_sources sources metric) as [b|] eqn:Hscan; [right|by left].
  by apply scan_sources_Some.
Qed.

(** Every key of the result was picked by the loop body for some input. *)
Lemma categorize_metrics_dom (metrics : list string) (b : string) :
  b ∈ dom (categorize_metrics metrics) →
  ∃ metric, metric ∈ metrics ∧ bucket_of METRIC_SOURCES metric = b.
Proof.
  intros [l Hb]%elem_of_dom.
  pose proof (categorize_loop_nonempty METRIC_SOURCES metrics ∅
                (map_Forall_empty _) b l Hb) as Hne.
  destruct l as [|m l]; [done|].
  assert (in_bucket (categorize_metrics metrics) b m) as Hin
    by (exists (m :: l); split; [done|left]).
  apply in_bucket_iff in Hin. by exists m.
Qed.

Lemma categorize_metrics_contents (metrics : list string) :
  bucket_contents (categorize_metrics metrics) ≡ₚ metrics.
Proof.
  unfold categorize_metrics, categorize_metrics_with.
  rewrite categorize_loop_contents.
  unfold bucket_contents. by rewrite map_to_list_empty.
Qed.

(** X1. No key of the result of [categorize_metrics] holds an empty
    list. *)
Theorem categorize_metrics_no_empty_bucket (metrics : list string)
    (b : string) (l : list string) :
  categorize_metrics metrics !! b = Some l → l ≠ [].
Proof.
  intros Hb.
  apply (categorize_loop_nonempty METRIC_SOURCES metrics ∅
           (map_Forall_empty _) b l Hb).
Qed.

Lemma categorize_metrics_no_empty_bucket_witness :
  ["up"; "scrape_x"] ≠ [].
Proof.
  apply (categorize_metrics_no_empty_bucket
           ["up"; "kube_pod_info"; "scrape_x"] "Prometheus").
  vm_compute. exact eq_refl.
Defined.

(** X2. The list under a key is a subsequence of the input: the metrics of
    a bucket come in the order in which they were given. *)
Theorem categorize_metrics_keeps_order (metrics : list string)
    (b : string) (l : list string) :
  categorize_metrics metrics !! b = Some l → sublist l metrics.
Proof.
  intros Hb. pose proof (categorize_bucket METRIC_SOURCES metrics b) as Hf.
  fold (categorize_metrics metrics) in Hf. rewrite Hb in Hf. cbn in Hf.
  rewrite Hf. apply sublist_filter.
Qed.

Lemma categorize_metrics_keeps_order_witness :
  sublist ["up"; "scrape_x"] ["up"; "kube_pod_info"; "scrape_x"].
Proof.
  apply (categorize_metrics_keeps_order
           ["up"; "kube_pod_info"; "scrape_x"] "Prometheus").
  vm_compute. exact eq_refl.
Defined.

(** X3. The keys of the result are among "Recording Rules",
    "Other/Unknown" and the display names of [METRIC_SOURCES]. *)
Theorem categorize_metrics_keys (metrics : list string) (b : string) :
  b ∈ dom (categorize_metrics metrics) →
  b = "Recording Rules" ∨ b = "Other/Unknown" ∨
  ∃ prefix info, (prefix, info) ∈ METRIC_SOURCES ∧ name info = b.
Proof.
  intros (m & _ & <-)%categorize_metrics_dom.
  destruct (bucket_of_cases METRIC_SOURCES m)
    as [?|[?|(k & prefix & info & Hk & Hname & _)]]; [by left|by right; left|].
  right; right. exists prefix, info. split; [|done].
  by apply list_elem_of_lookup_2 in Hk.
Qed.

Lemma categorize_metrics_keys_witness :
  "Prometheus" = "Recording Rules" ∨ "Prometheus" = "Other/Unknown" ∨
  ∃ prefix info, (prefix, info) ∈ METRIC_SOURCES ∧ name info = "Prometheus".
Proof.
  apply (categorize_metrics_keys ["up"; "kube_pod_info"; "scrape_x"]).
  apply elem_of_dom. eexists. vm_compute. exact eq_refl.
Defined.

(** The literal list of line 141 holds no name with a colon, so the
    second half of the test of line 141 never changes its outcome. *)
Lemma exclusions_hold_no_colon (metric : string) :
  is_recording_rule metric = true →
  list_in metric RECORDING_RULE_EXCLUSIONS = false.
Proof.
  rewrite is_recording_rule_colon. intros Hcolon.
  apply not_true_is_false. rewrite list_in_spec.
  unfold RECORDING_RULE_EXCLUSIONS. rewrite !elem_of_cons, elem_of_nil.
  intros [->|[->|[->|[]]]]; discriminate Hcolon.
Qed.

(** No rule of the shipped table is named like one of the two synthetic
    buckets. *)
Lemma shipped_names_not_synthetic (prefix : string) (info : source_info) :
  (prefix, info) ∈ METRIC_SOURCES →
  name info ≠ "Recording Rules" ∧ name info ≠ "Other/Unknown".
Proof.
  unfold METRIC_SOURCES. rewrite !elem_of_cons, elem_of_nil.
  intros Hin.
  repeat (destruct Hin as [[= -> ->]|Hin]; [by split|]). done.
Qed.

Lemma bucket_of_recording_rules (metric : string) :
  bucket_of METRIC_SOURCES metric = "Recording Rules"
  ↔ contains_colon metric = true.
Proof.
  unfold bucket_of. rewrite <- is_recording_rule_colon.
  destruct (is_recording_rule metric) eqn:Hrec.
  - by rewrite exclusions_hold_no_colon.
  - cbn [andb]. split; [|done]. intros Heq.
    destruct (scan_sources METRIC_SOURCES metric) as [b|] eqn:Hscan; [|done].
    apply scan_sources_Some in Hscan as (k & prefix & info & Hk & Hname & _).
    apply list_elem_of_lookup_2, shipped_names_not_synthetic in Hk.
    destruct Hk as [Hk _]. congruence.
Qed.

(** X4. The names filed under "Recording Rules" are exactly the input
    names that hold a colon: the exclusion list of the test never
    applies. *)
Theorem recording_rules_are_colon_names (metrics : list string)
    (metric : string) :
  in_bucket (categorize_metrics metrics) "Recording Rules" metric
  ↔ metric ∈ metrics ∧ contains_colon metric = true.
Proof.
  unfold categorize_metrics.
  by rewrite in_bucket_iff, bucket_of_recording_rules.
Qed.

Lemma recording_rules_are_colon_names_witness :
  in_bucket (categorize_metrics ["up"; "job:up:sum"]) "Recording Rules"
    "job:up:sum".
Proof.
  apply (recording_rules_are_colon_names ["up"; "job:up:sum"] "job:up:sum").
  split; [|reflexivity]. apply list_elem_of_further, list_elem_of_here.
Defined.

(** X5. A name without a colon that starts with no prefix of
    [METRIC_SOURCES] is filed under "Other/Unknown", and only such names
    are. *)
Theorem other_unknown_iff (metrics : list string) (metric : string) :
  in_bucket (categorize_metrics metrics) "Other/Unknown" metric
  ↔ metric ∈ metrics ∧ contains_colon metric = false ∧
    Forall (fun rule => startswith metric rule.1 = false) METRIC_SOURCES.
Proof.
  unfold categorize_metrics. rewrite in_bucket_iff.
  rewrite <- scan_sources_None.
  assert (bucket_of METRIC_SOURCES metric = "Other/Unknown"
          ↔ contains_colon metric = false ∧
            scan_sources METRIC_SOURCES metric = None) as Hiff; [|tauto].
  destruct (contains_colon metric) eqn:Hcolon.
  - apply bucket_of_recording_rules in Hcolon. rewrite Hcolon.
    split; [done|]. by intros [? _].
  - unfold bucket_of. rewrite is_recording_rule_colon, Hcolon. cbn [andb].
    destruct (scan_sources METRIC_SOURCES metric) as [b|] eqn:Hscan;
      [|done].
    apply scan_sources_Some in Hscan as (k & prefix & info & Hk & Hname & _).
    apply list_elem_of_lookup_2, shipped_names_not_synthetic in Hk.
    destruct Hk as [_ Hk]. split; [congruence|]. by intros [_ ?].
Qed.

Lemma other_unknown_iff_witness :
  in_bucket (categorize_metrics ["up"; "foo_bar"]) "Other/Unknown" "foo_bar".
Proof.
  apply (other_unknown_iff ["up"; "foo_bar"] "foo_bar").
  split; [apply list_elem_of_further, list_elem_of_here|].
  split; [reflexivity|]. repeat constructor.
Defined.

(** X6. On the shipped table a name without a colon that starts with the
    prefix of a rule is filed under the display name of that rule: no other
    rule can claim it. *)
Theorem prefix_determines_source (metrics : list string) (metric : string)
    (prefix : string) (info : source_info) :
  (prefix, info) ∈ METRIC_SOURCES →
  startswith metric prefix = true →
  contains_colon metric = false →
  metric ∈ metrics →
  in_bucket (categorize_metrics metrics) (name info) metric.
Proof.
  intros [i Hi]%list_elem_of_lookup Hpre Hcolon Hin.
  apply in_bucket_iff. split; [done|].
  unfold bucket_of. rewrite is_recording_rule_colon, Hcolon. cbn [andb].
  destruct (scan_sources METRIC_SOURCES metric) as [b|] eqn:Hscan.
  - apply scan_sources_Some in Hscan as (k & p' & info' & Hk & Hname & Hp').
    assert (k = i) as ->
      by apply (metric_sources_prefixes_disjoint k i _ _ metric Hk Hi Hp' Hpre).
    rewrite Hi in Hk. by injection Hk as <- <-.
  - apply scan_sources_None in Hscan.
    apply list_elem_of_lookup_2 in Hi.
    rewrite Forall_forall in Hscan. apply Hscan in Hi. cbn in Hi. congruence.
Qed.

Lemma prefix_determines_source_witness :
  in_bucket (categorize_metrics ["node_load1"; "up"]) "node-exporter"
    "node_load1".
Proof.
  apply (prefix_determines_source ["node_load1"; "up"] "node_load1" "node_"
           (SourceInfo "node-exporter" "Host/node hardware and OS metrics"
              "node-exporter")).
  - apply list_elem_of_further, list_elem_of_here.
  - reflexivity.
  - reflexivity.
  - apply list_elem_of_here.
Defined.

(** X7. Classifying a concatenation: under every key, the metrics of the
    first list followed by those of the second. *)
Theorem categorize_metrics_app (metrics1 metrics2 : list string)
    (b : string) :
  default [] (categorize_metrics (metrics1 ++ metrics2) !! b)
  = default [] (categorize_metrics metrics1 !! b)
    ++ default [] (categorize_metrics metrics2 !! b).
Proof.
  unfold categorize_metrics. rewrite !categorize_bucket. apply filter_app.
Qed.

(** * Further properties of the target aggregator *)

Lemma lookup_failure_None (target : gmap string value) :
  lookup_failure target = None ↔ has_fields target = true.
Proof.
  unfold lookup_failure, has_fields.
  destruct (target !! "labels") as [[|target_labels]|]; [done| |done].
  destruct (target !! "health"); [|done].
  by destruct (target !! "scrapeUrl").
Qed.

Lemma job_stats_step_failure (job_stats : gmap string job_stat)
    (target : gmap string value) (e : exn) :
  lookup_failure target = Some e → job_stats_step job_stats target = Raise e.
Proof.
  unfold lookup_failure, job_stats_step, getitem.
  destruct (target !! "labels") as [[|target_labels]|]; cbn;
    [by intros [= <-]| |by intros [= <-]].
  destruct (target !! "health") as [h|]; cbn; [|by intros [= <-]].
  destruct (target !! "scrapeUrl") as [u|]; cbn; [done|by intros [= <-]].
Qed.

Lemma job_stats_loop_raises (job_stats : gmap string job_stat)
    (targets : list (gmap string value)) (e : exn) :
  job_stats_loop job_stats targets = Raise e ↔
  ∃ good bad rest,
    targets = good ++ bad :: rest ∧
    Forall (fun target => has_fields target = true) good ∧
    lookup_failure bad = Some e.
Proof.
  revert job_stats. induction targets as [|t targets IH]; intros job_stats.
  - split; [done|]. intros (good & bad & rest & Heq & _).
    by destruct good.
  - cbn [job_stats_loop]. destruct (lookup_failure t) as [e'|] eqn:Hfail.
    + rewrite (job_stats_step_failure _ _ _ Hfail). cbn. split.
      * intros [= <-]. exists [], t, targets. by repeat split.
      * intros (good & bad & rest & Heq & Hgood & Hbad).
        destruct good as [|g good]; cbn in Heq; injection Heq as <- ->.
        { congruence. }
        apply Forall_cons in Hgood as [Hg _].
        apply lookup_failure_None in Hg. congruence.
    + pose proof Hfail as Hf. apply lookup_failure_None in Hf.
      destruct (job_stats_step_ok job_stats t Hf) as (ep & _ & ->). cbn.
      rewrite IH. split.
      * intros (good & bad & rest & -> & Hgood & Hbad).
        exists (t :: good), bad, rest. repeat split; [by constructor|done].
      * intros (good & bad & rest & Heq & Hgood & Hbad).
        destruct good as [|g good]; cbn in Heq; injection Heq as <- ->.
        { congruence. }
        apply Forall_cons in Hgood as [_ Hgood].
        by exists good, bad, rest.
Qed.

(** X8. [get_job_stats] ends in an exception exactly when some target
    fails a lookup, and the exception is that of the first such target:
    [KeyError] for a missing ["labels"], ["health"] or ["scrapeUrl"] (in
    this order), [AttributeError] for ["labels"] that is no mapping. *)
Theorem get_job_stats_raises_first_failure
    (targets : list (gmap string value)) (e : exn) :
  get_job_stats targets = Raise e ↔
  ∃ good bad rest,
    targets = good ++ bad :: rest ∧
    Forall (fun target => has_fields target = true) good ∧
    lookup_failure bad = Some e.
Proof. apply job_stats_loop_raises. Qed.

Lemma get_job_stats_raises_first_failure_witness :
  get_job_stats [node_up; delete "scrapeUrl" no_job; delete "labels" node_down]
  = Raise (KeyError "scrapeUrl").
Proof.
  apply (get_job_stats_raises_first_failure
           [node_up; delete "scrapeUrl" no_job; delete "labels" node_down]).
  exists [node_up], (delete "scrapeUrl" no_job), [delete "labels" node_down].
  split; [reflexivity|]. split; [by repeat constructor|].
  vm_compute. exact eq_refl.
Defined.

Lemma length_filter_all {A} (P : A → Prop) `{!∀ x, Decision (P x)}
    (l : list A) :
  length (filter P l) = length l ↔ Forall P l.
Proof.
  induction l as [|x l IH]; [by split; [constructor|]|].
  rewrite filter_cons. destruct (decide (P x)) as [Hx|Hx]; cbn [length].
  - rewrite Forall_cons. split.
    + intros [= Hlen]. split; [done|]. by apply IH.
    + intros [_ Hall]. f_equal. by apply IH.
  - pose proof (length_filter P l). split; [lia|].
    by intros [? _]%Forall_cons.
Qed.

(** X9. The health column of a job shows the check mark ([up == count])
    exactly when every target of the job has health ["up"]. *)
Theorem all_up_iff (targets : list (gmap string value))
    (r : gmap string job_stat) (j : string) (s : job_stat) :
  get_job_stats targets = Ok r → r !! j = Some s →
  (up s = count s
   ↔ Forall (fun target => job_of target = j → is_up target = true) targets).
Proof.
  intros Hrun Hj.
  destruct (job_stats_loop_stat j _ _ _ Hrun) as (Hc & Hu & _).
  rewrite (stat_of_lookup _ _ _ Hj), stat_of_empty in Hc, Hu.
  cbn in Hc, Hu. rewrite Hc, Hu, !Z.add_0_l.
  rewrite Nat2Z.inj_iff, length_filter_all, !Forall_forall.
  split.
  - intros Hall t Ht Hjob. apply Hall. by apply list_elem_of_filter.
  - intros Hall t [Hjob Ht]%list_elem_of_filter. by apply Hall.
Qed.

Lemma all_up_iff_witness :
  ¬ Forall (fun target => job_of target = "node-exporter" →
                          is_up target = true) sample_targets.
Proof.
  intros Hall.
  apply (all_up_iff sample_targets sample_stats "node-exporter"
           (stat_of sample_stats "node-exporter")) in Hall.
  - vm_compute in Hall. discriminate Hall.
  - vm_compute. exact eq_refl.
  - vm_compute. exact eq_refl.
Defined.

(** Per job: the count is the length of the endpoint list, which holds
    the records of the targets of the job. *)
Lemma get_job_stats_conserves_targets_aux
    (targets : list (gmap string value)) (r : gmap string job_stat) :
  get_job_stats targets = Ok r →
  ∀ j s, r !! j = Some s →
    count s = Z.of_nat (length (endpoints s)) ∧
    endpoints s
    = omap endpoint_of (filter (fun target => job_of target = j) targets).
Proof.
  intros Hrun j s Hj. unfold get_job_stats in Hrun.
  destruct (job_stats_loop_stat j _ _ _ Hrun) as (Hc & _ & Hes).
  rewrite (stat_of_lookup _ _ _ Hj), stat_of_empty in Hc, Hes.
  cbn in Hc, Hes. split; [|done].
  rewrite Hc, Hes. f_equal.
  assert (Forall (fun target => has_fields target = true)
            (filter (fun target => job_of target = j) targets)) as Hf.
  { apply Forall_forall. intros t [_ Ht]%list_elem_of_filter. revert t Ht.
    apply Forall_forall. by apply (job_stats_loop_fields ∅ targets r). }
  destruct (job_stats_loop_total ∅ _ Hf) as [r' Hrun'].
  by destruct (job_stats_loop_endpoints _ _ _ Hrun') as [_ ->].
Qed.

(** X10. The keys of the result are the jobs of the input targets, and no
    job is listed without a target: its count is at least 1 and its
    endpoint list is not empty. *)
Theorem get_job_stats_jobs (targets : list (gmap string value))
    (r : gmap string job_stat) :
  get_job_stats targets = Ok r →
  (∀ j, j ∈ dom r ↔ ∃ target, target ∈ targets ∧ job_of target = j) ∧
  (∀ j s, r !! j = Some s → 1 ≤ count s ∧ endpoints s ≠ []).
Proof.
  intros Hrun.
  assert (∀ j, j ∈ dom r ↔ ∃ target, target ∈ targets ∧ job_of target = j)
    as Hdom.
  { intros j. rewrite (job_stats_loop_dom _ _ _ Hrun), dom_empty_L.
    rewrite (left_id_L ∅ (∪)), elem_of_list_to_set, list_elem_of_fmap.
    split; intros (t & ? & ?); by exists t. }
  split; [done|]. intros j s Hj.
  destruct (Hdom j) as [(t & Ht & Hjob) _].
  { apply elem_of_dom. eauto. }
  destruct (get_job_stats_conserves_targets_aux targets r Hrun j s Hj)
    as [Hc Hes].
  assert (t ∈ filter (fun target => job_of target = j) targets) as Hin
    by (by apply list_elem_of_filter).
  assert (endpoints s ≠ []) as Hne.
  { intros Hnil. rewrite Hnil in Hc. cbn in Hc.
    destruct (job_stats_loop_stat j _ _ _ Hrun) as (Hc' & _ & _).
    rewrite (stat_of_lookup _ _ _ Hj), stat_of_empty in Hc'. cbn in Hc'.
    destruct (filter (fun target => job_of target = j) targets);
      [by apply elem_of_nil in Hin|]. cbn [length] in Hc'. lia. }
  split; [|done]. rewrite Hc. destruct (endpoints s); [done|]. cbn [length]. lia.
Qed.

Lemma get_job_stats_jobs_witness :
  (∀ j, j ∈ dom sample_stats
        ↔ ∃ target, target ∈ sample_targets ∧ job_of target = j) ∧
  (∀ j s, sample_stats !! j = Some s → 1 ≤ count s ∧ endpoints s ≠ []).
Proof.
  apply (get_job_stats_jobs sample_targets sample_stats).
  vm_compute. exact eq_refl.
Defined.

Lemma job_stats_loop_app (job_stats : gmap string job_stat)
    (targets1 targets2 : list (gmap string value)) :
  job_stats_loop job_stats (targets1 ++ targets2)
  = (job_stats' ← job_stats_loop job_stats targets1;
     job_stats_loop job_stats' targets2).
Proof.
  revert job_stats.
  induction targets1 as [|t targets1 IH]; intros job_stats; [done|].
  cbn [app job_stats_loop].
  destruct (job_stats_step job_stats t) as [job_stats'|e]; cbn; [|done].
  apply IH.
Qed.

(** X11. Aggregating a concatenation: when [get_job_stats] returns on two
    lists it returns on their concatenation, and there every job has the
    sum of the two counts, the sum of the two healthy counts, and the
    endpoints of the first list followed by those of the second. *)
Theorem get_job_stats_app (targets1 targets2 : list (gmap string value))
    (r1 r2 : gmap string job_stat) :
  get_job_stats targets1 = Ok r1 → get_job_stats targets2 = Ok r2 →
  ∃ r, get_job_stats (targets1 ++ targets2) = Ok r ∧
       ∀ j, count (stat_of r j)
              = count (stat_of r1 j) + count (stat_of r2 j) ∧
            up (stat_of r j) = up (stat_of r1 j) + up (stat_of r2 j) ∧
            endpoints (stat_of r j)
              = endpoints (stat_of r1 j) ++ endpoints (stat_of r2 j).
Proof.
  intros Hrun1 Hrun2. unfold get_job_stats in *.
  destruct (job_stats_loop_total r1 targets2) as [r Hrun].
  { by apply (job_stats_loop_fields ∅ targets2 r2). }
  exists r. split.
  - rewrite job_stats_loop_app, Hrun1. exact Hrun.
  - intros j.
    destruct (job_stats_loop_stat j _ _ _ Hrun) as (Hc & Hu & Hes).
    destruct (job_stats_loop_stat j _ _ _ Hrun2) as (Hc2 & Hu2 & Hes2).
    rewrite stat_of_empty in Hc2, Hu2, Hes2. cbn in Hc2, Hu2, Hes2.
    rewrite Hc, Hu, Hes, Hc2, Hu2, Hes2. repeat split; lia.
Qed.

Lemma get_job_stats_app_witness :
  ∃ r, get_job_stats (sample_targets ++ sample_targets) = Ok r ∧
       ∀ j, count (stat_of r j)
              = count (stat_of sample_stats j) + count (stat_of sample_stats j) ∧
            up (stat_of r j)
              = up (stat_of sample_stats j) + up (stat_of sample_stats j) ∧
            endpoints (stat_of r j)
              = endpoints (stat_of sample_stats j)
                ++ endpoints (stat_of sample_stats j).
Proof.
  apply (get_job_stats_app sample_targets sample_targets
           sample_stats sample_stats).
  - vm_compute. exact eq_refl.
  - vm_compute. exact eq_refl.
Defined.

(** X24. The two counters of a job: [count] is the number of input
    targets of the job, [up] the number of those whose health is
    ["up"]. *)
Theorem get_job_stats_counts (targets : list (gmap string value))
    (r : gmap string job_stat) (j : string) (s : job_stat) :
  get_job_stats targets = Ok r → r !! j = Some s →
  count s
  = Z.of_nat (length (filter (fun target => job_of target = j) targets)) ∧
  up s
  = Z.of_nat (length (filter (fun target => is_up target = true)
                        (filter (fun target => job_of target = j) targets))).
Proof.
  intros Hrun Hj.
  destruct (job_stats_loop_stat j _ _ _ Hrun) as (Hc & Hu & _).
  rewrite (stat_of_lookup _ _ _ Hj), stat_of_empty in Hc, Hu.
  cbn in Hc, Hu. by rewrite Hc, Hu, !Z.add_0_l.
Qed.

Lemma get_job_stats_counts_witness :
  count (stat_of sample_stats "node-exporter")
  = Z.of_nat (length (filter (fun target => job_of target = "node-exporter")
                        sample_targets)) ∧
  up (stat_of sample_stats "node-exporter")
  = Z.of_nat (length (filter (fun target => is_up target = true)
                        (filter (fun target =>
                                   job_of target = "node-exporter")
                           sample_targets))).
Proof.
  apply (get_job_stats_counts sample_targets sample_stats "node-exporter").
  - vm_compute. exact eq_refl.
  - vm_compute. exact eq_refl.
Defined.

(** * Sorting *)

(** ** The lexicographic order of strings *)

Lemma string_compare_cons (a b : ascii) (s1 s2 : string) :
  String.compare (String a s1) (String b s2)
  = match N.compare (N_of_ascii a) (N_of_ascii b) with
    | Eq => String.compare s1 s2
    | ne => ne
    end.
Proof. reflexivity. Qed.

Lemma string_compare_trans (s1 s2 s3 : string) :
  String.compare s1 s2 ≠ Gt → String.compare s2 s3 ≠ Gt →
  String.compare s1 s3 ≠ Gt.
Proof.
  revert s2 s3. induction s1 as [|a s1 IH]; intros [|b s2] [|c s3];
    try done.
  rewrite !string_compare_cons.
  destruct (N.compare_spec (N_of_ascii a) (N_of_ascii b)) as [Hab|Hab|Hab];
    destruct (N.compare_spec (N_of_ascii b) (N_of_ascii c)) as [Hbc|Hbc|Hbc];
    destruct (N.compare_spec (N_of_ascii a) (N_of_ascii c)) as [Hac|Hac|Hac];
    try done; try lia.
  apply IH.
Qed.

Lemma string_leb_trans (s1 s2 s3 : string) :
  String.leb s1 s2 = true → String.leb s2 s3 = true →
  String.leb s1 s3 = true.
Proof.
  unfold String.leb. intros H12 H23.
  pose proof (string_compare_trans s1 s2 s3) as Htrans.
  destruct (String.compare s1 s2), (String.compare s2 s3),
    (String.compare s1 s3); try done; exfalso; by apply Htrans.
Qed.

#[local] Instance string_leb_transitive :
  Transitive (fun a b => Is_true (String.leb a b)).
Proof.
  intros s1 s2 s3 H12%Is_true_true H23%Is_true_true.
  apply Is_true_true. by apply (string_leb_trans s1 s2 s3).
Qed.

#[local] Instance string_leb_total :
  Total (fun a b => Is_true (String.leb a b)).
Proof.
  intros s1 s2. destruct (String.leb_total s1 s2) as [H|H];
    [left|right]; by apply Is_true_true.
Qed.

#[local] Instance string_leb_antisymm :
  AntiSymm (=) (fun a b => Is_true (String.leb a b)).
Proof.
  intros s1 s2 H12%Is_true_true H21%Is_true_true.
  by apply String.leb_antisym.
Qed.

(** ** Stable insertion *)

Section StableSort.
Context {A : Type} (before : A → A → bool).
Hypothesis before_total : ∀ x y, before x y = false → before y x = true.

Lemma insert_sorted_perm (x : A) (l : list A) :
  insert_sorted before x l ≡ₚ x :: l.
Proof.
  induction l as [|y l IH]; cbn [insert_sorted]; [done|].
  destruct (before x y); [done|]. by rewrite IH, Permutation_swap.
Qed.

Lemma stable_sort_perm (l : list A) : stable_sort before l ≡ₚ l.
Proof.
  induction l as [|x l IH]; [done|].
  cbn [stable_sort foldr]. rewrite insert_sorted_perm. by f_equiv.
Qed.

Lemma insert_sorted_Sorted (x : A) (l : list A) :
  Sorted (fun a b => Is_true (before a b)) l →
  Sorted (fun a b => Is_true (before a b)) (insert_sorted before x l).
Proof.
  induction 1 as [|y l Hl IH Hhd]; cbn [insert_sorted].
  - by repeat constructor.
  - destruct (before x y) eqn:Hxy.
    + constructor; [by constructor|]. constructor. by apply Is_true_true.
    + constructor; [done|].
      destruct Hhd as [|z l Hyz]; cbn [insert_sorted].
      * constructor. by apply Is_true_true, before_total.
      * destruct (before x z); constructor;
          [by apply Is_true_true, before_total|done].
Qed.

Lemma stable_sort_Sorted (l : list A) :
  Sorted (fun a b => Is_true (before a b)) (stable_sort before l).
Proof.
  induction l as [|x l IH]; [constructor|].
  cbn [stable_sort foldr]. by apply insert_sorted_Sorted.
Qed.

(** Stability: a list that is in order already is left as it is. *)
Lemma stable_sort_Sorted_id (l : list A) :
  Sorted (fun a b => Is_true (before a b)) l → stable_sort before l = l.
Proof.
  induction 1 as [|x l Hl IH Hhd]; [done|].
  cbn [stable_sort foldr]. fold (stable_sort before l). rewrite IH.
  destruct Hhd as [|y l Hxy]; [done|]. cbn [insert_sorted].
  by rewrite (Is_true_true_1 _ Hxy).
Qed.
End StableSort.

(** * The reporter *)

Lemma foldl_add_lengths (items : list (string * list string)) (z : Z) :
  foldl (fun total item => total + Z.of_nat (length item.2)) z items
  = z + Z.of_nat (length (concat items.*2)).
Proof.
  revert z. induction items as [|item items IH]; intros z; cbn.
  - lia.
  - rewrite IH, length_app. lia.
Qed.

Lemma length_concat_perm (items items' : list (string * list string)) :
  items ≡ₚ items' →
  length (concat items.*2) = length (concat items'.*2).
Proof.
  induction 1 as [|x l l' _ IH|x y l|l l' l'' _ IH1 _ IH2]; cbn;
    rewrite ?length_app in *; lia.
Qed.

Lemma by_count_desc_total (x y : string * list string) :
  by_count_desc x y = false → by_count_desc y x = true.
Proof.
  unfold by_count_desc. intros H%Nat.leb_gt. apply Nat.leb_le. lia.
Qed.

(** X12. Whatever the order in which the dictionary lists its items, the
    TOTAL row of the "Metrics by Source" table shows the number of metric
    names that were classified. *)
Theorem summary_total_is_metric_count (metrics : list string)
    (items : list (string * list string)) :
  items ≡ₚ map_to_list (categorize_metrics metrics) →
  summary_total items = Z.of_nat (length metrics).
Proof.
  intros Hitems. unfold summary_total. rewrite foldl_add_lengths.
  rewrite (length_concat_perm _ items) by apply stable_sort_perm.
  rewrite (length_concat_perm _ _ Hitems).
  fold (bucket_contents (categorize_metrics metrics)).
  by rewrite categorize_metrics_contents.
Qed.

Lemma summary_total_is_metric_count_witness :
  summary_total
    (rev (map_to_list (categorize_metrics ["up"; "a:b"; "kube_x"; "up"])))
  = Z.of_nat (length ["up"; "a:b"; "kube_x"; "up"]).
Proof.
  apply (summary_total_is_metric_count ["up"; "a:b"; "kube_x"; "up"]).
  symmetry. apply Permutation_rev.
Defined.

(** X13. The "Metrics by Source" table has one row per item, each with
    the length of the item's list as its count, and the rows come by
    descending count; items that are in that order already keep their
    places. *)
Theorem summary_rows_sorted (items : list (string * list string)) :
  (summary_rows items).*1
    ≡ₚ (fun item => (item.1, Z.of_nat (length item.2))) <$> items ∧
  Sorted (fun row row' => row'.1.2 ≤ row.1.2) (summary_rows items) ∧
  (Sorted (fun item item' => (length item'.2 ≤ length item.2)%nat) items →
   (summary_rows items).*1
     = (fun item => (item.1, Z.of_nat (length item.2))) <$> items).
Proof.
  unfold summary_rows. rewrite <- !list_fmap_compose. split; [|split].
  - by rewrite (stable_sort_perm by_count_desc items).
  - apply (Sorted_fmap _ (fun a b => Is_true (by_count_desc a b))).
    + intros x y Hxy%Is_true_true%Nat.leb_le. cbn. lia.
    + apply stable_sort_Sorted, by_count_desc_total.
  - intros Hsorted. rewrite stable_sort_Sorted_id; [done|].
    eapply Sorted_fmap with (f := id) in Hsorted.
    + rewrite list_fmap_id in Hsorted. exact Hsorted.
    + intros x y Hxy. by apply Is_true_true, Nat.leb_le.
Qed.

Lemma summary_rows_sorted_witness :
  (summary_rows [("a", ["x"]); ("b", ["y"; "z"])]).*1
    ≡ₚ [("a", 1); ("b", 2)] ∧
  Sorted (fun row row' => row'.1.2 ≤ row.1.2)
    (summary_rows [("a", ["x"]); ("b", ["y"; "z"])]).
Proof.
  destruct (summary_rows_sorted [("a", ["x"]); ("b", ["y"; "z"])])
    as (Hperm & Hsorted & _).
  split; [exact Hperm|exact Hsorted].
Defined.

#[local] Instance by_job_transitive :
  Transitive (fun a b : string * job_stat => Is_true (by_job a b)).
Proof. intros x y z. unfold by_job. apply string_leb_transitive. Qed.

Lemma by_job_total (x y : string * job_stat) :
  by_job x y = false → by_job y x = true.
Proof.
  unfold by_job. intros Hxy.
  destruct (String.leb_total x.1 y.1) as [H|H]; congruence.
Qed.

(** X14. The "Scrape Targets (Jobs)" table has one row per job, by
    ascending job name, and is the same whatever the order in which the
    dictionary lists its items. *)
Theorem target_rows_sorted (job_stats : gmap string job_stat)
    (items : list (string * job_stat)) :
  items ≡ₚ map_to_list job_stats →
  target_rows items = target_rows (map_to_list job_stats) ∧
  Sorted (fun row row' => Is_true (String.leb row.1.1.1 row'.1.1.1))
    (target_rows items) ∧
  (target_rows items).*1.*1.*1 ≡ₚ (map_to_list job_stats).*1.
Proof.
  intros Hitems. split; [|split].
  - unfold target_rows. f_equal.
    apply (Sorted_unique_strong (fun a b => Is_true (by_job a b))).
    + intros [j1 s1] [j2 s2] H1 H2 H12%Is_true_true H21%Is_true_true.
      unfold by_job in H12, H21. cbn in H12, H21.
      assert (j1 = j2) as <- by (by apply String.leb_antisym).
      f_equal.
      rewrite stable_sort_perm, Hitems in H1. rewrite stable_sort_perm in H2.
      apply elem_of_map_to_list in H1, H2. congruence.
    + apply stable_sort_Sorted, by_job_total.
    + apply stable_sort_Sorted, by_job_total.
    + by rewrite !stable_sort_perm.
  - unfold target_rows.
    apply (Sorted_fmap _ (fun a b => Is_true (by_job a b))); [done|].
    apply stable_sort_Sorted, by_job_total.
  - unfold target_rows. rewrite <- !list_fmap_compose.
    rewrite (stable_sort_perm by_job items), Hitems. done.
Qed.

Lemma target_rows_sorted_witness :
  target_rows (rev (map_to_list sample_stats))
  = [("node-exporter", 2, 1, false); ("unknown", 1, 1, true)].
Proof.
  destruct (target_rows_sorted sample_stats (rev (map_to_list sample_stats)))
    as (-> & _ & _).
  - symmetry. apply Permutation_rev.
  - vm_compute. exact eq_refl.
Defined.

Lemma find_description_shipped (prefix : string) (info : source_info) :
  (prefix, info) ∈ METRIC_SOURCES →
  find_description METRIC_SOURCES (name info) ≠ EmptyString.
Proof.
  unfold METRIC_SOURCES. rewrite !elem_of_cons, elem_of_nil. intros Hin.
  repeat (destruct Hin as [[= -> ->]|Hin]; [by vm_compute|]). done.
Qed.

(** X15. Every row of the "Metrics by Source" table has a description:
    no key that [categorize_metrics] can produce is described by the empty
    string. *)
Theorem every_bucket_is_described (metrics : list string) (b : string) :
  b ∈ dom (categorize_metrics metrics) → describe b ≠ EmptyString.
Proof.
  intros (m & _ & <-)%categorize_metrics_dom. unfold describe.
  destruct (String.eqb_spec (bucket_of METRIC_SOURCES m) "Recording Rules");
    [done|].
  destruct (String.eqb_spec (bucket_of METRIC_SOURCES m) "Other/Unknown");
    [done|].
  destruct (bucket_of_cases METRIC_SOURCES m)
    as [?|[?|(k & prefix & info & Hk & <- & _)]]; [done..|].
  apply list_elem_of_lookup_2 in Hk.
  by apply (find_description_shipped prefix).
Qed.

Lemma every_bucket_is_described_witness :
  describe "Kubelet" ≠ EmptyString.
Proof.
  apply (every_bucket_is_described ["kubelet_running_pods"]).
  apply elem_of_dom. eexists. vm_compute. exact eq_refl.
Defined.

(** X16. The sample block of a bucket is left out only for an empty list;
    otherwise it shows the first metrics of the bucket, five at most, and
    the "... and N more" line appears exactly when there are more than
    five, with N the number of metrics not shown. *)
Theorem sample_block_bounds (metrics : list string) :
  (sample_block metrics = None ↔ metrics = []) ∧
  ∀ n shown more, sample_block metrics = Some (n, shown, more) →
    n = length metrics ∧
    shown `prefix_of` metrics ∧
    (length shown ≤ 5)%nat ∧
    (length shown + default 0 more = length metrics)%nat ∧
    (more = None ↔ (length metrics ≤ 5)%nat).
Proof.
  split; [by destruct metrics|].
  intros n shown more Hblock.
  assert (n = length metrics ∧ shown = take 5 metrics ∧
          more = if (5 <? length metrics)%nat
                 then Some (length metrics - 5)%nat else None)
    as (-> & -> & ->).
  { destruct metrics; [done|]. by injection Hblock as <- <- <-. }
  split; [done|]. split; [apply prefix_take|].
  rewrite length_take.
  destruct (Nat.ltb_spec 5 (length metrics)); cbn [default from_option];
    unfold id; repeat split; try lia; try done.
Qed.

Lemma sample_block_bounds_witness :
  (length ["a"; "b"; "c"; "d"; "e"] + default 0 (Some 2)
   = length ["a"; "b"; "c"; "d"; "e"; "f"; "g"])%nat.
Proof.
  destruct (sample_block_bounds ["a"; "b"; "c"; "d"; "e"; "f"; "g"])
    as [_ Hblock].
  apply (Hblock 7%nat ["a"; "b"; "c"; "d"; "e"] (Some 2%nat)).
  reflexivity.
Defined.

(** * Further properties of the process *)

(** ** The console *)

Lemma existsb_ext_in {A} (f g : A → bool) (l : list A) :
  (∀ x, x ∈ l → f x = g x) → existsb f l = existsb g l.
Proof.
  induction l as [|x l IH]; intros Hfg; [done|]. cbn.
  rewrite (Hfg x) by left. f_equal. apply IH. intros y Hy. apply Hfg.
  by right.
Qed.

Lemma existsb_false {A} (f : A → bool) (l : list A) :
  (∀ x, x ∈ l → f x = false) → existsb f l = false.
Proof.
  intros Hf. rewrite (existsb_ext_in f (fun _ => false)) by done.
  clear Hf. induction l as [|x l IH]; [done|exact IH].
Qed.

Lemma forallb_ext_in {A} (f g : A → bool) (l : list A) :
  (∀ x, x ∈ l → f x = g x) → forallb f l = forallb g l.
Proof.
  induction l as [|x l IH]; intros Hfg; [done|]. cbn.
  rewrite (Hfg x) by left. f_equal. apply IH. intros y Hy. apply Hfg.
  by right.
Qed.

Lemma negb_existsb {A} (f : A → bool) (l : list A) :
  negb (existsb f l) = forallb (fun x => negb (f x)) l.
Proof. induction l as [|x l IH]; [done|]. cbn. by rewrite negb_orb, IH. Qed.

(** The texts of a report that was printed to its end. *)
Lemma print_summary_ok (rejects : string → bool)
    (categorized : gmap string (list string))
    (job_stats : gmap string job_stat) (w : streams) :
  summary_renders rejects categorized job_stats = true →
  print_summary rejects categorized job_stats w
  = (Returns tt,
     Streams (stdout w ++ report_items categorized job_stats) (stderr w)).
Proof.
  unfold summary_renders, print_summary.
  intros [[Hs Hj]%andb_true_iff Hm]%andb_true_iff.
  apply negb_true_iff in Hs, Hj, Hm. rewrite Hs, Hj, Hm.
  unfold mbind, io_bind, print_out; cbn.
  by rewrite <- !app_assoc.
Qed.

(** A report that meets a refused text ends in [MarkupError]: the header
    is on standard output, the closing note is not. *)
Lemma print_summary_refused (rejects : string → bool)
    (categorized : gmap string (list string))
    (job_stats : gmap string job_stat) (w : streams) :
  summary_renders rejects categorized job_stats = false →
  ∃ out,
    print_summary rejects categorized job_stats w
    = (Uncaught MarkupError, Streams (stdout w ++ Header :: out) (stderr w)) ∧
    Note ∉ out.
Proof.
  unfold summary_renders, print_summary. intros Hno.
  destruct (existsb _ (map_to_list categorized).*1) eqn:Hs.
  { exists []. split; [|by intros ?%elem_of_nil].
    unfold mbind, io_bind, print_out, lift; cbn. done. }
  destruct (existsb _ (map_to_list job_stats).*1) eqn:Hj.
  { exists [MetricsTable categorized]. split.
    - unfold mbind, io_bind, print_out, lift; cbn.
      by rewrite <- !app_assoc.
    - rewrite !elem_of_cons, elem_of_nil. by intros [?|?]. }
  destruct (existsb (sample_rejected rejects) _) eqn:Hm; [|done].
  exists [MetricsTable categorized; TargetsTable job_stats; SamplesTitle;
          SamplesInterrupted categorized]. split.
  - unfold mbind, io_bind, print_out, lift; cbn.
    by rewrite <- !app_assoc.
  - rewrite !elem_of_cons, elem_of_nil. by intros [?|[?|[?|[?|?]]]].
Qed.

Lemma print_each_ok (rejects : string → bool) (metrics : list string)
    (w : streams) :
  listing_renders rejects metrics = true →
  print_each rejects metrics w
  = (Returns tt, Streams (stdout w ++ (MetricLine <$> metrics)) (stderr w)).
Proof.
  revert w. induction metrics as [|m metrics IH]; intros w; cbn.
  - intros _. rewrite app_nil_r. by destruct w.
  - intros [Hm Hrest]%andb_true_iff. apply negb_true_iff in Hm.
    unfold mbind, io_bind, console_print. rewrite Hm.
    unfold print_out; cbn -[print_each]. rewrite (IH _ Hrest). cbn.
    by rewrite <- app_assoc.
Qed.

Lemma print_each_refused (rejects : string → bool) (metrics : list string)
    (w : streams) :
  listing_renders rejects metrics = false →
  ∃ printed,
    print_each rejects metrics w
    = (Uncaught MarkupError,
       Streams (stdout w ++ (MetricLine <$> printed)) (stderr w)) ∧
    printed `prefix_of` metrics ∧ printed ≠ metrics.
Proof.
  revert w. induction metrics as [|m metrics IH]; intros w; cbn; [done|].
  unfold mbind, io_bind, console_print.
  destruct (markup_error rejects m (listing_line m)) eqn:Hm; cbn.
  - intros _. exists []. rewrite app_nil_r. split; [by destruct w|].
    split; [apply prefix_nil|done].
  - intros Hrest. unfold print_out; cbn -[print_each].
    destruct (IH (Streams (stdout w ++ [MetricLine m]) (stderr w)) Hrest)
      as (printed & -> & Hpre & Hne).
    exists (m :: printed). cbn. rewrite <- app_assoc. split; [done|].
    split; [|congruence]. destruct Hpre as [k ->]. by exists k.
Qed.

(** ** What the report of a run is printed from *)

Lemma shipped_names_no_bracket (prefix : string) (info : source_info) :
  (prefix, info) ∈ METRIC_SOURCES → str_in "[" (name info) = false.
Proof.
  unfold METRIC_SOURCES. rewrite !elem_of_cons, elem_of_nil. intros Hin.
  repeat (destruct Hin as [[= -> ->]|Hin]; [by vm_compute|]). done.
Qed.

(** No source name that [categorize_metrics] produces holds an opening
    bracket. *)
Lemma bucket_key_no_bracket (metrics : list string) (b : string)
    (l : list string) :
  categorize_metrics metrics !! b = Some l → str_in "[" b = false.
Proof.
  intros Hb.
  destruct (categorize_metrics_dom metrics b) as (m & _ & <-).
  { apply elem_of_dom. eauto. }
  destruct (bucket_of_cases METRIC_SOURCES m)
    as [->|[->|(k & prefix & info & Hk & <- & _)]]; [done..|].
  apply list_elem_of_lookup_2 in Hk.
  by apply (shipped_names_no_bracket prefix).
Qed.

(** In a run the report renders exactly when the job labels and the
    sample lines do: the source names are the script's own. *)
Lemma summary_renders_run (rejects : string → bool) (metrics : list string)
    (targets : list (gmap string value)) (r : gmap string job_stat) :
  get_job_stats targets = Ok r →
  summary_renders rejects (categorize_metrics metrics) r
  = jobs_render rejects targets
    && samples_render rejects (categorize_metrics metrics).
Proof.
  intros Hrun. unfold summary_renders, jobs_render, samples_render.
  rewrite existsb_false.
  2:{ intros b [[b' l] [-> Hbl]]%list_elem_of_fmap.
      apply elem_of_map_to_list in Hbl. unfold markup_error. cbn [fst].
      by rewrite (bucket_key_no_bracket _ _ _ Hbl). }
  cbn [negb andb]. f_equal.
  - apply eq_true_iff_eq.
    rewrite negb_true_iff, forallb_forall, <- not_true_iff_false,
      existsb_exists.
    split.
    + intros Hno t Ht%list_elem_of_In. apply negb_true_iff.
      apply not_true_is_false. intros Hbad. apply Hno.
      exists (job_of t). split; [|done]. apply list_elem_of_In.
      apply list_elem_of_fmap.
      assert (job_of t ∈ dom r) as [s Hs]%elem_of_dom.
      { rewrite (job_stats_loop_dom _ _ _ Hrun), dom_empty_L.
        rewrite (left_id_L ∅ (∪)), elem_of_list_to_set, list_elem_of_fmap.
        by exists t. }
      exists (job_of t, s). split; [done|]. by apply elem_of_map_to_list.
    + intros Hall (j & Hj%list_elem_of_In & Hbad).
      apply list_elem_of_fmap in Hj as ([j' s] & -> & Hjs).
      apply elem_of_map_to_list in Hjs.
      assert (j' ∈ dom r) as Hdom by (apply elem_of_dom; eauto).
      rewrite (job_stats_loop_dom _ _ _ Hrun), dom_empty_L in Hdom.
      rewrite (left_id_L ∅ (∪)), elem_of_list_to_set, list_elem_of_fmap
        in Hdom.
      destruct Hdom as (t & -> & Ht).
      apply list_elem_of_In, Hall in Ht. cbn in Hbad.
      rewrite Hbad in Ht. done.
  - rewrite negb_existsb. apply forallb_ext_in.
    intros [b l] Hbl%elem_of_map_to_list. unfold sample_rejected.
    cbn [fst snd]. rewrite <- negb_existsb. f_equal.
    unfold markup_error at 1.
    rewrite (bucket_key_no_bracket _ _ _ Hbl). by destruct l.
Qed.

(** ** Text mode, outcome by outcome *)

Lemma run_text_ok (rejects : string → bool) (all : bool)
    (server : prometheus) (names : list string)
    (targets : list (gmap string value)) (r : gmap string job_stat) :
  answers server names targets → get_job_stats targets = Ok r →
  jobs_render rejects targets = true →
  samples_render rejects (categorize_metrics (sorted names)) = true →
  (all = true → listing_renders rejects (sorted names) = true) →
  run rejects (Args false all) server
  = (0, Streams
          (Progress :: report_items (categorize_metrics (sorted names)) r
           ++ (if all
               then AllMetricsTitle :: (MetricLine <$> sorted names)
               else []))
          []).
Proof.
  intros Ha Hrun Hjobs Hsamples Hlisting.
  rewrite (run_answers rejects _ server names targets r Ha Hrun).
  cbn [json show_all]. unfold mbind, io_bind.
  rewrite print_summary_ok
    by (by rewrite (summary_renders_run _ _ targets), Hjobs, Hsamples).
  destruct all.
  - unfold print_out. cbn -[print_each report_items].
    rewrite print_each_ok by auto. cbn -[report_items].
    by rewrite <- app_assoc.
  - cbn -[report_items]. by rewrite app_nil_r.
Qed.

Lemma run_text_refused (rejects : string → bool) (all : bool)
    (server : prometheus) (names : list string)
    (targets : list (gmap string value)) (r : gmap string job_stat) :
  answers server names targets → get_job_stats targets = Ok r →
  jobs_render rejects targets
  && samples_render rejects (categorize_metrics (sorted names)) = false
  ∨ (all = true ∧ listing_renders rejects (sorted names) = false) →
  ∃ out,
    run rejects (Args false all) server
    = (1, Streams (Progress :: Header :: out) ["Traceback"]).
Proof.
  intros Ha Hrun Hno.
  rewrite (run_answers rejects _ server names targets r Ha Hrun).
  cbn [json show_all]. unfold mbind, io_bind.
  destruct (summary_renders rejects (categorize_metrics (sorted names)) r)
    eqn:Hsum.
  - rewrite print_summary_ok by done.
    rewrite (summary_renders_run _ _ targets) in Hsum by done.
    destruct Hno as [Hno|[-> Hno]]; [congruence|].
    unfold print_out. cbn -[print_each report_items].
    match goal with
    | |- context [print_each rejects (sorted names) ?w] =>
        destruct (print_each_refused rejects (sorted names) w Hno)
          as (printed & -> & _ & _)
    end.
    cbn. by eexists.
  - destruct (print_summary_refused rejects _ r (Streams [Progress] []) Hsum)
      as (out & -> & _).
    cbn. by eexists.
Qed.

(** ** Exit status and streams *)

(** X17. The exit status is 0 or 1.  It is 0 exactly when both queries
    are answered with a "success" envelope that carries data, every target
    has its ["labels"] mapping, ["health"] and ["scrapeUrl"], and, in text
    mode, the console refuses none of the texts it is given: the job
    labels, the sample lines and, with [--show-all], the lines of the
    listing. *)
Theorem exit_status_iff (rejects : string → bool) (args : arguments)
    (server : prometheus) :
  ((run rejects args server).1 = 0 ∨ (run rejects args server).1 = 1) ∧
  ((run rejects args server).1 = 0 ↔
   ∃ names targets,
     answers server names targets ∧
     Forall (fun target => has_fields target = true) targets ∧
     (json args = true ∨
      (jobs_render rejects targets = true ∧
       samples_render rejects (categorize_metrics (sorted names)) = true ∧
       (show_all args = true →
        listing_renders rejects (sorted names) = true)))).
Proof.
  destruct (run_cases rejects args server)
    as [(names & targets & r & Ha & Hrun)|[[msg Hmsg] Hno]].
  2:{ rewrite Hmsg. cbn. split; [by right|]. split; [done|].
      intros (names & targets & Ha & Hall & _). exfalso. apply Hno. eauto. }
  assert (Forall (fun target => has_fields target = true) targets) as Hall
    by (by apply (job_stats_loop_fields ∅ targets r)).
  assert (∀ names' targets',
            answers server names' targets' →
            names' = names ∧ targets' = targets) as Hsame.
  { intros names' targets' [Hlv Hta]. destruct Ha as [Hlv' Hta'].
    rewrite Hlv' in Hlv. rewrite Hta' in Hta.
    by injection Hlv as <-; injection Hta as <-. }
  destruct args as [[] all].
  - rewrite (run_success_json rejects all server names targets r Ha Hrun).
    cbn. split; [by left|]. split; [|done]. intros _.
    exists names, targets. auto.
  - destruct (jobs_render rejects targets
              && samples_render rejects (categorize_metrics (sorted names)))
      eqn:Hsum.
    + apply andb_true_iff in Hsum as [Hjobs Hsamples].
      destruct (decide (all = true ∧
                        listing_renders rejects (sorted names) = false))
        as [[-> Hlist]|Hlist].
      * destruct (run_text_refused rejects true server names targets r
                    Ha Hrun) as [out ->]; [by right|].
        cbn. split; [by right|]. split; [done|].
        intros (names' & targets' & Ha' & _ & [?|(_ & _ & Hl)]); [done|].
        destruct (Hsame _ _ Ha') as [-> ->]. cbn in Hl.
        rewrite Hl in Hlist; done.
      * rewrite (run_text_ok rejects all server names targets r Ha Hrun
                   Hjobs Hsamples).
        -- cbn. split; [by left|]. split; [|done]. intros _.
           exists names, targets. split; [done|]. split; [done|]. right.
           split; [done|]. split; [done|]. cbn. intros ->.
           destruct (listing_renders rejects (sorted names)); [done|].
           by destruct Hlist.
        -- intros ->.
           destruct (listing_renders rejects (sorted names)); [done|].
           by destruct Hlist.
    + destruct (run_text_refused rejects all server names targets r
                  Ha Hrun) as [out ->]; [by left|].
      cbn. split; [by right|]. split; [done|].
      intros (names' & targets' & Ha' & _ & [?|(Hj & Hs & _)]); [done|].
      destruct (Hsame _ _ Ha') as [-> ->].
      rewrite Hj, Hs in Hsum. done.
Qed.

Lemma exit_status_iff_witness :
  (run rejects_red (Args false true)
     (Prometheus (Json (Envelope "success" (Some ["up"; "b:c"; "a"])))
                 (Json (Envelope "success"
                          (Some (TargetsData sample_targets)))))).1 = 0.
Proof.
  apply (exit_status_iff rejects_red (Args false true)
           (Prometheus (Json (Envelope "success" (Some ["up"; "b:c"; "a"])))
                       (Json (Envelope "success"
                                (Some (TargetsData sample_targets)))))).
  exists ["up"; "b:c"; "a"], sample_targets.
  split; [split; reflexivity|]. split; [repeat constructor|].
  right. split; [vm_compute; exact eq_refl|].
  split; [vm_compute; exact eq_refl|]. intros _. vm_compute. exact eq_refl.
Defined.


(** In JSON mode the run looks neither at [show_all] nor at the
    console. *)
Lemma run_json_ignores_show_all (rejects rejects' : string → bool)
    (all all' : bool) (server : prometheus) :
  run rejects (Args true all) server = run rejects' (Args true all') server.
Proof.
  destruct (label_values server) as [e|[st [names|]]] eqn:Hlv.
  - by rewrite (run_names_exception rejects (Args true all) server e Hlv),
      (run_names_exception rejects' (Args true all') server e Hlv).
  - destruct (decide (st = "success")) as [->|Hst].
    2:{ by rewrite
          (run_names_status rejects (Args true all) server _ Hlv Hst),
          (run_names_status rejects' (Args true all') server _ Hlv Hst). }
    destruct (targets_api server) as [e|[st' [[targets]|]]] eqn:Hta.
    + by rewrite
        (run_targets_exception rejects (Args true all) server _ e Hlv Hta),
        (run_targets_exception rejects' (Args true all') server _ e Hlv Hta).
    + destruct (decide (st' = "success")) as [->|Hst'].
      2:{ by rewrite
            (run_targets_status rejects (Args true all) server _ _
               Hlv Hta Hst'),
            (run_targets_status rejects' (Args true all') server _ _
               Hlv Hta Hst'). }
      assert (answers server names targets) as Ha by done.
      destruct (get_job_stats targets) as [r|e] eqn:Hrun.
      * by rewrite (run_success_json rejects all server _ _ r Ha Hrun),
          (run_success_json rejects' all' server _ _ r Ha Hrun).
      * by rewrite
          (run_job_stats_raise rejects (Args true all) server _ _ e Ha Hrun),
          (run_job_stats_raise rejects' (Args true all') server _ _ e
             Ha Hrun).
    + destruct (decide (st' = "success")) as [->|Hst'].
      * by rewrite
          (run_targets_nodata rejects (Args true all) server _ _ Hlv Hta
             eq_refl eq_refl),
          (run_targets_nodata rejects' (Args true all') server _ _ Hlv Hta
             eq_refl eq_refl).
      * by rewrite
          (run_targets_status rejects (Args true all) server _ _
             Hlv Hta Hst'),
          (run_targets_status rejects' (Args true all') server _ _
             Hlv Hta Hst').
  - destruct (decide (st = "success")) as [->|Hst].
    + by rewrite
        (run_names_nodata rejects (Args true all) server _ Hlv eq_refl
           eq_refl),
        (run_names_nodata rejects' (Args true all') server _ Hlv eq_refl
           eq_refl).
    + by rewrite
        (run_names_status rejects (Args true all) server _ Hlv Hst),
        (run_names_status rejects' (Args true all') server _ Hlv Hst).
Qed.

(** X19. In JSON mode [--show-all] changes nothing, nor does the console,
    and standard output is empty or one JSON document: the progress line
    of text mode is never mixed into it. *)
Theorem json_mode_output (rejects rejects' : string → bool) (all : bool)
    (server : prometheus) :
  run rejects (Args true all) server = run rejects' (Args true false) server ∧
  (stdout (run rejects (Args true all) server).2 = [] ∨
   ∃ output,
     stdout (run rejects (Args true all) server).2 = [JsonReport output]).
Proof.
  split; [apply run_json_ignores_show_all|].
  destruct (run_cases rejects (Args true all) server)
    as [(names & targets & r & Ha & Hrun)|[[msg Hmsg] _]].
  - rewrite (run_success_json rejects all server names targets r Ha Hrun).
    cbn. right. by eexists.
  - rewrite Hmsg. by left.
Qed.

(** X20. When the label-values query fails the run does not depend on
    the targets endpoint: the second query is never made. *)
Theorem first_failure_hides_second_query (rejects : string → bool)
    (args : arguments) (server : prometheus)
    (other : request_outcome targets_data) :
  query_fails (label_values server) →
  run rejects args server
  = run rejects args (Prometheus (label_values server) other).
Proof.
  destruct (label_values server) as [e|body] eqn:Hlv; cbn; intros Hfail.
  - by rewrite (run_names_exception rejects args server e Hlv),
      (run_names_exception rejects args
         (Prometheus (RequestException e) other) e eq_refl).
  - by rewrite (run_names_status rejects args server body Hlv Hfail),
      (run_names_status rejects args (Prometheus (Json body) other) body
         eq_refl Hfail).
Qed.

Lemma first_failure_hides_second_query_witness :
  run rejects_red (Args false true)
      (Prometheus (Json (Envelope "error" None))
                  (RequestException "timed out"))
  = run rejects_red (Args false true)
      (Prometheus (Json (Envelope "error" None))
                  (Json (Envelope "success"
                           (Some (TargetsData sample_targets))))).
Proof.
  apply (first_failure_hides_second_query rejects_red (Args false true)
           (Prometheus (Json (Envelope "error" None))
                       (RequestException "timed out"))).
  cbn. discriminate.
Defined.

(** ** The names and the JSON document *)

Lemma sorted_perm (names : list string) : sorted names ≡ₚ names.
Proof. apply merge_sort_Permutation. Qed.

Lemma sorted_StronglySorted (names : list string) :
  StronglySorted (fun a b => Is_true (String.leb a b)) (sorted names).
Proof. apply (StronglySorted_merge_sort _). Qed.

Lemma sublist_StronglySorted {A} (R : relation A) (l k : list A) :
  sublist l k → StronglySorted R k → StronglySorted R l.
Proof.
  induction 1 as [|x l k Hsub IH|x l k Hsub IH]; intros Hk; [done| |].
  - apply StronglySorted_inv in Hk as [Hk Hall]. constructor; [by apply IH|].
    rewrite Forall_forall in *. intros y Hy. apply Hall.
    by apply (sublist_subseteq _ _ Hsub).
  - apply StronglySorted_inv in Hk as [Hk _]. by apply IH.
Qed.

(** X21. When the label-values query is answered with "success" and data,
    [get_all_metrics] prints nothing and returns the names in ascending
    lexicographic order, none lost and none added. *)
Theorem get_all_metrics_sorted (server : prometheus) (names : list string)
    (w : streams) :
  label_values server = Json (Envelope "success" (Some names)) →
  ∃ l, get_all_metrics server w = (Returns l, w) ∧
       StronglySorted (fun a b => Is_true (String.leb a b)) l ∧
       l ≡ₚ names.
Proof.
  intros Hlv. exists (sorted names). split; [|split].
  - unfold get_all_metrics. rewrite Hlv. reflexivity.
  - apply sorted_StronglySorted.
  - apply sorted_perm.
Qed.

Lemma get_all_metrics_sorted_witness :
  ∃ l, get_all_metrics
         (Prometheus (Json (Envelope "success" (Some ["up"; "b"; "a"])))
                     (RequestException "unused"))
         (Streams [Progress] [])
       = (Returns l, Streams [Progress] []) ∧
       StronglySorted (fun a b => Is_true (String.leb a b)) l ∧
       l ≡ₚ ["up"; "b"; "a"].
Proof.
  apply (get_all_metrics_sorted
           (Prometheus (Json (Envelope "success" (Some ["up"; "b"; "a"])))
                       (RequestException "unused"))).
  reflexivity.
Defined.

Lemma total_metrics_sum (categorized : gmap string (list string)) :
  map_fold (fun _ metrics acc => Z.of_nat (length metrics) + acc)
           0 categorized
  = Z.of_nat (length (bucket_contents categorized)).
Proof.
  rewrite map_fold_foldr. unfold bucket_contents.
  induction (map_to_list categorized) as [|[k l] items IH]; [done|].
  cbn. rewrite IH, length_app. lia.
Qed.

(** X22. The document of a successful JSON run: [total_metrics] is the
    number of names the server listed, the job statistics are those of the
    listed targets and their counts add up to the number of targets, and
    every bucket carries the length of its list as its count, is not
    empty, and lists its metrics in ascending order. *)
Theorem json_document (rejects : string → bool) (all : bool)
    (server : prometheus) (names : list string)
    (targets : list (gmap string value)) :
  answers server names targets →
  Forall (fun target => has_fields target = true) targets →
  ∃ output,
    run rejects (Args true all) server
    = (0, Streams [JsonReport output] []) ∧
    total_metrics output = Z.of_nat (length names) ∧
    get_job_stats targets = Ok (scrape_targets output) ∧
    total_count (scrape_targets output) = Z.of_nat (length targets) ∧
    ∀ b c l, metrics_by_source output !! b = Some (c, l) →
      c = Z.of_nat (length l) ∧ l ≠ [] ∧
      StronglySorted (fun x y => Is_true (String.leb x y)) l.
Proof.
  intros Ha Hall.
  destruct (job_stats_loop_total ∅ targets Hall) as [r Hrun].
  fold (get_job_stats targets) in Hrun.
  eexists. split.
  { rewrite (run_success_json rejects all server names targets r Ha Hrun).
    reflexivity. }
  cbn [json total_metrics scrape_targets metrics_by_source].
  split; [|split; [done|split]].
  - rewrite total_metrics_sum, categorize_metrics_contents.
    by rewrite sorted_perm.
  - rewrite (job_stats_loop_total_count _ _ _ Hrun).
    unfold total_count. by rewrite map_fold_empty.
  - intros b c l. rewrite lookup_fmap.
    destruct (categorize_metrics (sorted names) !! b) as [l'|] eqn:Hb;
      [|done].
    intros [= <- <-]. split; [done|]. split.
    + apply (categorize_loop_nonempty METRIC_SOURCES (sorted names) ∅
               (map_Forall_empty _) b l' Hb).
    + apply (sublist_StronglySorted _ l' (sorted names));
        [|apply sorted_StronglySorted].
      pose proof (categorize_bucket METRIC_SOURCES (sorted names) b) as Hf.
      fold (categorize_metrics (sorted names)) in Hf.
      rewrite Hb in Hf. cbn in Hf. rewrite Hf. apply sublist_filter.
Qed.

Lemma json_document_witness :
  ∃ output,
    run rejects_red (Args true false)
        (Prometheus (Json (Envelope "success" (Some ["up"; "b:c"; "a"])))
                    (Json (Envelope "success"
                             (Some (TargetsData sample_targets)))))
    = (0, Streams [JsonReport output] []) ∧
    total_metrics output = 3 ∧
    total_count (scrape_targets output) = 3.
Proof.
  destruct (json_document rejects_red false
              (Prometheus
                 (Json (Envelope "success" (Some ["up"; "b:c"; "a"])))
                 (Json (Envelope "success"
                          (Some (TargetsData sample_targets)))))
              ["up"; "b:c"; "a"] sample_targets)
    as (output & Hrun & Htotal & _ & Hcount & _).
  - split; reflexivity.
  - repeat constructor.
  - exists output. split; [exact Hrun|]. split; [exact Htotal|exact Hcount].
Defined.

(** X23. Which message for which failure: a raised client error is
    reported with its text, on either query; an envelope that is not
    "success" is reported by naming the query, metrics or targets, that
    was refused. *)
Theorem error_messages (rejects : string → bool) (args : arguments)
    (server : prometheus) :
  (∀ e, label_values server = RequestException e →
        stderr (run rejects args server).2 = ["Error querying Prometheus: " +:+ e]) ∧
  (∀ body, label_values server = Json body → status body ≠ "success" →
        stderr (run rejects args server).2
        = ["Failed to get metrics from Prometheus"]) ∧
  (∀ names e,
        label_values server = Json (Envelope "success" (Some names)) →
        targets_api server = RequestException e →
        stderr (run rejects args server).2 = ["Error querying Prometheus: " +:+ e]) ∧
  (∀ names body,
        label_values server = Json (Envelope "success" (Some names)) →
        targets_api server = Json body → status body ≠ "success" →
        stderr (run rejects args server).2
        = ["Failed to get targets from Prometheus"]).
Proof.
  repeat split.
  - intros e Hlv. by rewrite (run_names_exception rejects args server e Hlv).
  - intros body Hlv Hst. by rewrite (run_names_status rejects args server body Hlv Hst).
  - intros names e Hlv Hta.
    by rewrite (run_targets_exception rejects args server names e Hlv Hta).
  - intros names body Hlv Hta Hst.
    by rewrite (run_targets_status rejects args server names body Hlv Hta Hst).
Qed.

Lemma error_messages_witness :
  stderr (run rejects_red (Args true false)
            (Prometheus (Json (Envelope "success" (Some ["up"])))
                        (Json (Envelope "error" None)))).2
  = ["Failed to get targets from Prometheus"].
Proof.
  destruct (error_messages rejects_red (Args true false)
              (Prometheus (Json (Envelope "success" (Some ["up"])))
                          (Json (Envelope "error" None))))
    as (_ & _ & _ & Htargets).
  apply (Htargets ["up"] (Envelope "error" None)).
  - reflexivity.
  - reflexivity.
  - cbn. discriminate.
Defined.


(** ** Text mode *)

(** X25. A successful run in text mode: when the console refuses none of
    the job labels, sample lines and (with [--show-all]) listing lines,
    the run prints the progress line and then the whole report; with
    [--show-all] the title and one line per name follow, the names in
    ascending order, a rearrangement of the names received and exactly the
    names that the buckets of the report hold. *)
Theorem text_mode_output (rejects : string → bool) (all : bool)
    (server : prometheus) (names : list string)
    (targets : list (gmap string value)) :
  answers server names targets →
  Forall (fun target => has_fields target = true) targets →
  jobs_render rejects targets = true →
  samples_render rejects (categorize_metrics (sorted names)) = true →
  (all = true → listing_renders rejects (sorted names) = true) →
  ∃ categorized job_stats listing,
    run rejects (Args false all) server
    = (0, Streams
            (Progress :: report_items categorized job_stats
             ++ (if all then AllMetricsTitle :: (MetricLine <$> listing)
                 else []))
            []) ∧
    get_job_stats targets = Ok job_stats ∧
    StronglySorted (fun a b => Is_true (String.leb a b)) listing ∧
    listing ≡ₚ names ∧
    bucket_contents categorized ≡ₚ listing.
Proof.
  intros Ha Hall Hjobs Hsamples Hlisting.
  destruct (job_stats_loop_total ∅ targets Hall) as [r Hrun].
  fold (get_job_stats targets) in Hrun.
  exists (categorize_metrics (sorted names)), r, (sorted names).
  split; [|split; [done|split; [|split]]].
  - by apply (run_text_ok rejects all server names targets).
  - apply sorted_StronglySorted.
  - apply sorted_perm.
  - apply categorize_metrics_contents.
Qed.

Lemma text_mode_output_witness :
  ∃ categorized job_stats listing,
    run rejects_red (Args false true)
        (Prometheus (Json (Envelope "success" (Some ["up"; "b:c"; "a"])))
                    (Json (Envelope "success"
                             (Some (TargetsData sample_targets)))))
    = (0, Streams
            (Progress :: report_items categorized job_stats
             ++ AllMetricsTitle :: (MetricLine <$> listing))
            []) ∧
    get_job_stats sample_targets = Ok job_stats ∧
    StronglySorted (fun a b => Is_true (String.leb a b)) listing ∧
    listing ≡ₚ ["up"; "b:c"; "a"] ∧
    bucket_contents categorized ≡ₚ listing.
Proof.
  apply (text_mode_output rejects_red true
           (Prometheus (Json (Envelope "success" (Some ["up"; "b:c"; "a"])))
                       (Json (Envelope "success"
                                (Some (TargetsData sample_targets)))))
           ["up"; "b:c"; "a"] sample_targets).
  - split; reflexivity.
  - repeat constructor.
  - vm_compute. exact eq_refl.
  - vm_compute. exact eq_refl.
  - intros _. vm_compute. exact eq_refl.
Defined.

Lemma sources_render (rejects : string → bool) (metrics : list string) :
  existsb (fun source => markup_error rejects source source)
    (map_to_list (categorize_metrics metrics)).*1 = false.
Proof.
  apply existsb_false.
  intros b [[b' l] [-> Hbl]]%list_elem_of_fmap.
  apply elem_of_map_to_list in Hbl. unfold markup_error. cbn [fst].
  by rewrite (bucket_key_no_bracket _ _ _ Hbl).
Qed.

Lemma jobs_refused (rejects : string → bool)
    (targets : list (gmap string value)) (r : gmap string job_stat) :
  get_job_stats targets = Ok r → jobs_render rejects targets = false →
  existsb (fun job => markup_error rejects job job) (map_to_list r).*1
  = true.
Proof.
  intros Hrun Hjobs. unfold jobs_render in Hjobs.
  rewrite <- negb_existsb in Hjobs. apply negb_false_iff in Hjobs.
  apply existsb_exists in Hjobs as (t & Ht%list_elem_of_In & Hbad).
  apply existsb_exists. exists (job_of t). split; [|done].
  apply list_elem_of_In, list_elem_of_fmap.
  assert (job_of t ∈ dom r) as [s Hs]%elem_of_dom.
  { rewrite (job_stats_loop_dom _ _ _ Hrun), dom_empty_L.
    rewrite (left_id_L ∅ (∪)), elem_of_list_to_set, list_elem_of_fmap.
    by exists t. }
  exists (job_of t, s). split; [done|]. by apply elem_of_map_to_list.
Qed.

(** X26. A job label that the console refuses (one that reads as a
    closing tag, say): both queries have succeeded, the header and the
    "Metrics by Source" table are on standard output, the targets table is
    not, and the run ends with the traceback on the error stream and exit
    status 1. *)
Theorem refused_job_label (rejects : string → bool) (all : bool)
    (server : prometheus) (names : list string)
    (targets : list (gmap string value)) :
  answers server names targets →
  Forall (fun target => has_fields target = true) targets →
  jobs_render rejects targets = false →
  run rejects (Args false all) server
  = (1, Streams [Progress; Header;
                 MetricsTable (categorize_metrics (sorted names))]
          ["Traceback"]).
Proof.
  intros Ha Hall Hjobs.
  destruct (job_stats_loop_total ∅ targets Hall) as [r Hrun].
  fold (get_job_stats targets) in Hrun.
  rewrite (run_answers rejects _ server names targets r Ha Hrun).
  cbn [json show_all]. unfold mbind, io_bind, print_summary.
  rewrite sources_render, (jobs_refused rejects targets r Hrun Hjobs).
  reflexivity.
Qed.

Lemma refused_job_label_witness :
  run rejects_red (Args false false)
    (Prometheus
       (Json (Envelope "success" (Some ["up"])))
       (Json (Envelope "success"
                (Some (TargetsData
                         [<["labels" := VLabels {[ "job" := "[/red]" ]}]>
                            node_up])))))
  = (1, Streams [Progress; Header; MetricsTable (categorize_metrics ["up"])]
          ["Traceback"]).
Proof.
  apply (refused_job_label rejects_red false
           (Prometheus
              (Json (Envelope "success" (Some ["up"])))
              (Json (Envelope "success"
                       (Some (TargetsData
                                [<["labels" :=
                                     VLabels {[ "job" := "[/red]" ]}]>
                                   node_up])))))
           ["up"]
           [<["labels" := VLabels {[ "job" := "[/red]" ]}]> node_up]).
  - split; reflexivity.
  - repeat constructor.
  - vm_compute. exact eq_refl.
Defined.


